(** * Feature-matrix loader of the PopaneDB dashboard

    A shallow embedding of the client-side loader that lives in
    [src/components/charts/FeatureAnalysisChart.tsx]:

    - [getCacheKey], the cache key builder (it sorts its two array
      arguments in place);
    - [fetchSubject], the per-subject fetcher;
    - [processNext] and the pool of at most [CONCURRENCY_LIMIT] workers
      started by [fetchFeatureMatrix];
    - the two module-level caches [featureMatrixCache] and [pcaCache];
    - the click handler that asks for a PCA projection and joins the
      returned points with the rows on display;
    - the state of the component under all of its writers, calls of
      [fetchFeatureMatrix] that overlap among them
      ([ComprehensiveFeatureTable.session]).

    JavaScript runs these on one event loop.  A worker is suspended only
    inside [await fetchSubject(...)], at the two network awaits; what
    follows the body's arrival in [fetchSubject] reads and writes the
    shared [featureCols] only, what follows in [processNext] the other
    shared variables only, so the two commute with the continuations of
    the other workers and are taken as one step.  The embedding therefore
    has one transition per settled [fetchSubject] promise, chosen by a
    schedule, and the network is a function from the requested subject id
    to what came back.

    Numbers are modelled by [Z]: the code compares subject ids and
    subtracts them in a comparator, and only copies every other number.
    The clock [Date.now()] is an argument wherever it is read. *)

From stdpp Require Import base option list sorting strings gmap pretty.
From Stdlib Require Import ZArith Lia Ascii.

Open Scope Z_scope.

(** ** JavaScript values as far as the guards of the code look at them *)

(** What a field of a parsed JSON payload can be.  The code only tests
    such a field for truthiness and with [Array.isArray] before it
    iterates, so the non-array shapes carry no further structure. *)
Inductive JsVal (A : Type) : Type :=
| JUndefined
| JNull
| JBool (b : bool)
| JNumber (z : Z)
| JString (s : string)
| JObject
| JArray (items : list A).

Arguments JUndefined {A}.
Arguments JNull {A}.
Arguments JBool {A} b.
Arguments JNumber {A} z.
Arguments JString {A} s.
Arguments JObject {A}.
Arguments JArray {A} items.

(** [!!v] of JavaScript. *)
Definition truthy {A} (v : JsVal A) : bool :=
  match v with
  | JUndefined | JNull => false
  | JBool b => b
  | JNumber z => negb (z =? 0)
  | JString s => negb (String.eqb s "")
  | JObject | JArray _ => true
  end.

Definition isArray {A} (v : JsVal A) : bool :=
  match v with
  | JArray _ => true
  | _ => false
  end.

(** The elements iterated by [v.map(...)] once [v] passed
    [Array.isArray]. *)
Definition arrayItems {A} (v : JsVal A) : list A :=
  match v with
  | JArray items => items
  | _ => []
  end.

(** What can be thrown.  [Error msg] is [new Error(msg)]; the others are
    raised by the runtime: a rejected [fetch], a body that is not JSON. *)
Inductive Thrown : Type :=
| Error (message : string)
| NetworkFailure
| SyntaxError.

(** How an [async] call settles. *)
Inductive Settled (A : Type) : Type :=
| Fulfilled (value : A)
| Rejected (reason : Thrown).

Arguments Fulfilled {A} value.
Arguments Rejected {A} reason.

(** What [await fetch(url)] followed by [await response.json()] yields:
    the request fails, or a response arrives with its [ok] flag, its
    status and a body ([None] when the body does not parse). *)
Inductive Fetched (A : Type) : Type :=
| FetchRejected
| Responded (ok : bool) (status : Z) (body : option A).

Arguments FetchRejected {A}.
Arguments Responded {A} ok status body.

(** ** Sorting and joining arrays *)

(** [Array.prototype.sort()] without a comparator orders strings by code
    unit, [String.le] here.  The engine's algorithm is not modelled: the
    order is total and antisymmetric, so the sorted arrangement of an
    array is unique (lemma [sort_strings_unique]). *)
Definition sort_strings (l : list string) : list string :=
  merge_sort String.le l.

(** [a] may stay before [b] when the comparator returns a number that is
    not positive. *)
Definition precedes (cmp : Z → Z → Z) (a b : Z) : Prop := cmp a b ≤ 0.

Global Instance precedes_dec cmp : RelDecision (precedes cmp).
Proof. intros a b. unfold precedes. apply _. Defined.

(** The comparator [(a, b) => a - b]. *)
Definition ascending (a b : Z) : Z := a - b.

(** [Array.prototype.sort(cmp)]. *)
Definition sort_with (cmp : Z → Z → Z) (l : list Z) : list Z :=
  merge_sort (precedes cmp) l.

(** [Array.prototype.join(sep)] on strings and on numbers. *)
Definition join (sep : string) (l : list string) : string :=
  String.concat sep l.

Definition join_numbers (sep : string) (l : list Z) : string :=
  String.concat sep (pretty <$> l).

(** ** Cache key builder *)

(** [getCacheKey] returns the key; [features.sort()] and
    [subjectIds.sort(...)] sort the caller's arrays in place, so the
    result records what the two arrays hold after the call. *)
Record KeyCall : Type := {
  cacheKey : string;
  featuresAfter : list string;
  subjectIdsAfter : list Z
}.

Definition getCacheKey (studyNumber : Z) (features : list string)
    (subjectIds : list Z) : KeyCall :=
  let features' := sort_strings features in
  let subjectIds' := sort_with ascending subjectIds in
  {| cacheKey := pretty studyNumber +:+ ":" +:+ join "," features' +:+ ":"
                 +:+ join_numbers "," subjectIds';
     featuresAfter := features';
     subjectIdsAfter := subjectIds' |}.

(** ** Data model *)

(** A field of a raw row: the index signature [number | string]. *)
Inductive JsField : Type :=
| FNum (z : Z)
| FStr (s : string).

(** One entry of [FeatureMatrixResponse.rows]. *)
Record RawRow : Type := {
  Subject : Z;
  Emotion : string;
  _color : string;
  fields : gmap string JsField
}.

(** [item[col]]. *)
Definition getProp (item : RawRow) (col : string) : option JsField :=
  if String.eqb col "Subject" then Some (FNum (Subject item))
  else if String.eqb col "Emotion" then Some (FStr (Emotion item))
  else if String.eqb col "_color" then Some (FStr (_color item))
  else fields item !! col.

(** The payload of [/features/matrix], with the two fields the code
    reads.  [rows] is tested for truthiness and with [Array.isArray], so
    it may be any value.  [columns] is only tested for truthiness before
    [filter] is called on it: it is [None] when the field is absent or
    null, and otherwise the array of strings that the interface
    declares. *)
Record FeatureMatrixResponse : Type := {
  columns : option (list string);
  rows : JsVal RawRow
}.

(** [SubjectEmotionFeatureRow]. *)
Record SubjectEmotionFeatureRow : Type := {
  subjectId : Z;
  emotion : string;
  color : string;
  features : gmap string Z;
  pc1 : option Z;
  pc2 : option Z
}.

(** One entry of [FrequencyPCAResponse.data_points]. *)
Module Point.
Record t : Type := {
  subject_id : Z;
  emotion : string;
  color : string;
  pc1 : Z;
  pc2 : Z
}.
End Point.

Record FrequencyPCAResponse : Type := {
  variance_explained : Z * Z;
  data_points : JsVal Point.t
}.

(** Entries of the two module-level caches. *)
Record MatrixEntry : Type := {
  entryData : list SubjectEmotionFeatureRow;
  entryColumns : list string;
  entryTimestamp : Z
}.

Record PcaEntry : Type := {
  entryResult : FrequencyPCAResponse;
  pcaTimestamp : Z
}.

Definition CACHE_DURATION_MS : Z := 5 * 60 * 1000.

Definition FFT_SUPPORTED_FEATURES : list string :=
  ["ECG"; "EDA"; "SBP"; "DBP"; "temp"; "respiration"; "dzdt"; "dz"; "z0"].

Definition CONCURRENCY_LIMIT : nat := 5.

(** The React state of [ComprehensiveFeatureTable] that the loader
    writes. *)
Record View : Type := {
  data : list SubjectEmotionFeatureRow;
  loading : bool;
  loadingPCA : bool;
  error : option string;
  featureColumns : list string;
  progressCurrent : nat;
  progressTotal : nat
}.

(** ** Per-subject fetcher *)

(** The filter applied to [result.columns]. *)
Definition isFeatureColumn (col : string) : bool :=
  negb (String.eqb col "Subject") && negb (String.eqb col "Emotion")
  && negb (String.eqb col "_color").

(** The body of [result.rows.map(item => ...)]: the loop over
    [featureCols] keeps the fields whose value is a number. *)
Definition keepNumeric (item : RawRow) (acc : gmap string Z) (col : string)
    : gmap string Z :=
  match getProp item col with
  | Some (FNum v) => <[col := v]> acc
  | _ => acc
  end.

Definition toFeatureRow (featureCols : list string) (item : RawRow)
    : SubjectEmotionFeatureRow :=
  {| subjectId := Subject item;
     emotion := Emotion item;
     color := _color item;
     features := foldl (keepNumeric item) ∅ featureCols;
     pc1 := None;
     pc2 := None |}.

(** [fetchSubject], from the value of the shared [featureCols] when the
    body arrives.  The first component is [Some cols] when the call
    assigns [featureCols = cols] (and calls [setFeatureColumns(cols)]),
    which it does when [featureCols.length === 0 && result.columns]. *)
Definition fetchSubject (featureCols : list string)
    (response : Fetched FeatureMatrixResponse)
    : option (list string) * Settled (list SubjectEmotionFeatureRow) :=
  match response with
  | FetchRejected => (None, Rejected NetworkFailure)
  | Responded ok status body =>
      if negb ok then
        (None, Rejected (Error ("HTTP error! status: " +:+ pretty status)))
      else
        match body with
        | None => (None, Rejected SyntaxError)
        | Some result =>
            if negb (truthy (rows result)) || negb (isArray (rows result))
            then (None, Fulfilled [])
            else
              match featureCols, columns result with
              | [], Some cols =>
                  let featureCols' := List.filter isFeatureColumn cols in
                  (Some featureCols',
                   Fulfilled (toFeatureRow featureCols'
                                <$> arrayItems (rows result)))
              | _, _ =>
                  (None,
                   Fulfilled (toFeatureRow featureCols
                                <$> arrayItems (rows result)))
              end
        end
  end.

(** ** Bounded scheduler *)

(** A slot of the [inFlight] array: the promise returned by one initial
    call of [processNext].  It is pending while its chain of
    [processNext] calls awaits the fetch for a subject, and resolved once
    a call in the chain found the queue empty. *)
Inductive Worker : Type :=
| Awaiting (subjectId : Z)
| Resolved.

(** The variables closed over by [processNext], the React state, and the
    two effects observed from outside: the values published as [current]
    through [setLoadingProgress], oldest first, and the subjects reported
    with [console.error].  A published value is [completedCount] as it
    is when [setLoadingProgress] is called.  [view] is the React state
    as this call of [fetchFeatureMatrix] writes it; what the component
    shows when other writers are at work, a second call among them, is
    the matter of [ComprehensiveFeatureTable.session] below. *)
Record Batch : Type := {
  queue : list Z;
  inFlight : list Worker;
  allRows : list SubjectEmotionFeatureRow;
  featureCols : list string;
  completedCount : nat;
  view : View;
  published : list nat;
  consoleErrors : list (Z * Thrown)
}.

Definition setQueueAndSlots (b : Batch) (q : list Z) (ws : list Worker)
    : Batch :=
  {| queue := q; inFlight := ws; allRows := allRows b;
     featureCols := featureCols b; completedCount := completedCount b;
     view := view b; published := published b;
     consoleErrors := consoleErrors b |}.

(** The part of a call of [processNext] that runs before it suspends:
    an empty queue resolves the call, otherwise the head of the queue is
    shifted out and its fetch is issued. *)
Definition processNext (b : Batch) : Worker * list Z :=
  match queue b with
  | [] => (Resolved, [])
  | subjectId :: rest => (Awaiting subjectId, rest)
  end.

(** [setFeatureColumns(featureCols)] inside [fetchSubject]. *)
Definition setFeatureColumns (cols : list string) (v : View) : View :=
  {| data := data v; loading := loading v; loadingPCA := loadingPCA v;
     error := error v; featureColumns := cols;
     progressCurrent := progressCurrent v;
     progressTotal := progressTotal v |}.

(** [setLoadingProgress(prev => ({...prev, current: n, ...}))] followed
    by [setData([...allRows])]. *)
Definition publish (n : nat) (allRows : list SubjectEmotionFeatureRow)
    (v : View) : View :=
  {| data := allRows; loading := loading v; loadingPCA := loadingPCA v;
     error := error v; featureColumns := featureColumns v;
     progressCurrent := n; progressTotal := progressTotal v |}.

(** The continuation of [await fetchSubject(subjectId)] up to, but not
    including, the recursive call: the [try] branch merges the rows and
    publishes progress, the [catch] branch only logs. *)
Definition afterFetch (subjectId : Z)
    (response : Fetched FeatureMatrixResponse) (b : Batch) : Batch :=
  let '(captured, outcome) := fetchSubject (featureCols b) response in
  let cols := default (featureCols b) captured in
  let v := from_option setFeatureColumns id captured (view b) in
  match outcome with
  | Fulfilled rows =>
      let allRows' := allRows b ++ rows in
      let completedCount' := S (completedCount b) in
      {| queue := queue b; inFlight := inFlight b; allRows := allRows';
         featureCols := cols; completedCount := completedCount';
         view := publish completedCount' allRows' v;
         published := published b ++ [completedCount'];
         consoleErrors := consoleErrors b |}
  | Rejected err =>
      {| queue := queue b; inFlight := inFlight b; allRows := allRows b;
         featureCols := cols; completedCount := completedCount b;
         view := v; published := published b;
         consoleErrors := consoleErrors b ++ [(subjectId, err)] |}
  end.

Section Scheduler.

(** What the remote service answers to the request for one subject. *)
Variable fetch : Z → Fetched FeatureMatrixResponse.

(** The fetch awaited by worker [i] settles: its continuation runs, then
    [await processNext()] either takes the next subject or resolves the
    worker. *)
Definition settle (i : nat) (b : Batch) : option Batch :=
  match inFlight b !! i with
  | Some (Awaiting subjectId) =>
      let b1 := afterFetch subjectId (fetch subjectId) b in
      let '(w, q) := processNext b1 in
      Some (setQueueAndSlots b1 q (<[i := w]> (inFlight b1)))
  | _ => None
  end.

(** A run: the workers whose fetch settles, in the order in which the
    event loop sees them. *)
Fixpoint run (sched : list nat) (b : Batch) : option Batch :=
  match sched with
  | [] => Some b
  | i :: rest =>
      match settle i b with
      | Some b' => run rest b'
      | None => None
      end
  end.

End Scheduler.

(** The [for] loop that starts the workers: each iteration calls
    [processNext] and pushes the promise it returns. *)
Fixpoint startWorkers (n : nat) (b : Batch) : Batch :=
  match n with
  | O => b
  | S n' =>
      let '(w, q) := processNext b in
      startWorkers n' (setQueueAndSlots b q (inFlight b ++ [w]))
  end.

(** [fetchFeatureMatrix] after a cache miss, up to [await
    Promise.all(inFlight)], from the React state [v] that it finds. *)
Definition dispatch (v : View) (subjectIds : list Z) : Batch :=
  let v' := {| data := []; loading := true; loadingPCA := loadingPCA v;
               error := None; featureColumns := featureColumns v;
               progressCurrent := 0%nat;
               progressTotal := length subjectIds |} in
  startWorkers (Nat.min CONCURRENCY_LIMIT (length subjectIds))
    {| queue := subjectIds; inFlight := []; allRows := [];
       featureCols := []; completedCount := 0%nat; view := v';
       published := [0%nat]; consoleErrors := [] |}.

(** The number of fetches that are pending. *)
Definition isAwaiting (w : Worker) : bool :=
  match w with
  | Awaiting _ => true
  | Resolved => false
  end.

Definition pending (b : Batch) : nat :=
  length (List.filter isAwaiting (inFlight b)).

(** [Promise.all(inFlight)] is fulfilled. *)
Definition allResolved (b : Batch) : bool :=
  forallb (λ w, negb (isAwaiting w)) (inFlight b).

(** ** The two caches and the loader around the scheduler *)

(** [cached && (Date.now() - cached.timestamp) < CACHE_DURATION_MS], as
    both cache look-ups have it. *)
Definition lookupFresh {E} (timestamp : E → Z) (now : Z)
    (cache : gmap string E) (key : string) : option E :=
  match cache !! key with
  | Some cached =>
      if bool_decide (now - timestamp cached < CACHE_DURATION_MS)
      then Some cached else None
  | None => None
  end.

(** [availableColumns.filter(col => FFT_SUPPORTED_FEATURES.includes(col))] *)
Definition fftFeatures (availableColumns : list string) : list string :=
  List.filter (λ col, bool_decide (col ∈ FFT_SUPPORTED_FEATURES))
    availableColumns.

(** How a call of [fetchFeatureMatrix] leaves its synchronous prefix. *)
Inductive Started : Type :=
| NothingToFetch (v : View)
| ServedFromCache (v : View)
| Dispatched (key : string) (b : Batch).

(** [fetchFeatureMatrix] up to its first suspension.  The queue is a copy
    of [subjectIds] taken after [getCacheKey] sorted that array. *)
Definition fetchFeatureMatrix_begin (now : Z)
    (featureMatrixCache : gmap string MatrixEntry) (v : View)
    (studyNumber : Z) (availableColumns : list string)
    (subjectIds : list Z) : Started :=
  let fft := fftFeatures availableColumns in
  if bool_decide (length subjectIds = 0%nat)
     || bool_decide (length fft = 0%nat)
  then
    NothingToFetch
      {| data := []; loading := false; loadingPCA := loadingPCA v;
         error := error v; featureColumns := featureColumns v;
         progressCurrent := progressCurrent v;
         progressTotal := progressTotal v |}
  else
    let k := getCacheKey studyNumber fft subjectIds in
    match lookupFresh entryTimestamp now featureMatrixCache (cacheKey k) with
    | Some cached =>
        ServedFromCache
          {| data := entryData cached; loading := false;
             loadingPCA := loadingPCA v; error := error v;
             featureColumns := entryColumns cached;
             progressCurrent := progressCurrent v;
             progressTotal := progressTotal v |}
    | None => Dispatched (cacheKey k) (dispatch v (subjectIdsAfter k))
    end.

(** What follows [await Promise.all(inFlight)]: the cache write and the
    [finally] block. *)
Definition fetchFeatureMatrix_end (now : Z) (key : string) (b : Batch)
    (featureMatrixCache : gmap string MatrixEntry)
    : gmap string MatrixEntry * View :=
  (<[key := {| entryData := allRows b; entryColumns := featureCols b;
               entryTimestamp := now |}]> featureMatrixCache,
   {| data := data (view b); loading := false;
      loadingPCA := loadingPCA (view b); error := error (view b);
      featureColumns := featureColumns (view b);
      progressCurrent := progressCurrent (view b);
      progressTotal := progressTotal (view b) |}).

(** ** PCA request and join *)

(** [pcaResult.data_points.map(item => ...)]: one row per returned
    point, with the features of the first row of [data] that has the
    point's subject id and emotion. *)
Definition sameSubjectEmotion (item : Point.t) (d : SubjectEmotionFeatureRow)
    : bool :=
  bool_decide (subjectId d = Point.subject_id item)
  && bool_decide (emotion d = Point.emotion item).

Definition joinPoint (data : list SubjectEmotionFeatureRow) (item : Point.t)
    : SubjectEmotionFeatureRow :=
  let matchingRow := List.find (sameSubjectEmotion item) data in
  {| subjectId := Point.subject_id item;
     emotion := Point.emotion item;
     color := Point.color item;
     features := from_option features ∅ matchingRow;
     pc1 := Some (Point.pc1 item);
     pc2 := Some (Point.pc2 item) |}.

Definition dataWithPCA (data : list SubjectEmotionFeatureRow)
    (data_points : list Point.t) : list SubjectEmotionFeatureRow :=
  joinPoint data <$> data_points.

(** [err instanceof Error ? err.message : 'Failed to generate PCA']; the
    errors of the runtime are instances of [Error] with a message of the
    runtime's choosing, for which the two strings below stand. *)
Definition messageOf (e : Thrown) : string :=
  match e with
  | Error message => message
  | NetworkFailure => "Failed to fetch"
  | SyntaxError => "Unexpected token in JSON"
  end.

(** The arguments handed to [onGeneratePCA]. *)
Record Projection : Type := {
  projFeatures : list string;
  projRows : list SubjectEmotionFeatureRow;
  projVariance : Z * Z
}.

(** The outcome of one click on the PCA button. *)
Record PcaClick : Type := {
  pcaCacheAfter : gmap string PcaEntry;
  requested : bool;
  handed : Settled Projection;
  viewAfter : View
}.

(** The first half of the handler: the result comes from the cache, or
    from the network, in which case it is stored at once. *)
Definition obtainPcaResult (now' : Z) (pcaCache : gmap string PcaEntry)
    (key : string) (cachedPCA : option PcaEntry)
    (reply : Fetched FrequencyPCAResponse)
    : gmap string PcaEntry * Settled FrequencyPCAResponse :=
  match cachedPCA with
  | Some cached => (pcaCache, Fulfilled (entryResult cached))
  | None =>
      match reply with
      | FetchRejected => (pcaCache, Rejected NetworkFailure)
      | Responded ok status body =>
          if negb ok then
            (pcaCache,
             Rejected (Error ("HTTP error! status: " +:+ pretty status)))
          else
            match body with
            | None => (pcaCache, Rejected SyntaxError)
            | Some pcaResult =>
                (<[key := {| entryResult := pcaResult;
                             pcaTimestamp := now' |}]> pcaCache,
                 Fulfilled pcaResult)
            end
      end
  end.

(** The click handler of the PCA button.  [now] is the clock at the cache
    look-up and [now'] at the cache write; [reply] is what the service
    answers if it is asked. *)
Definition generatePCA (now now' : Z) (pcaCache : gmap string PcaEntry)
    (v : View) (studyNumber : Z) (availableColumns : list string)
    (subjectIds : list Z) (reply : Fetched FrequencyPCAResponse)
    : PcaClick :=
  let fft := fftFeatures availableColumns in
  let k := getCacheKey studyNumber fft subjectIds in
  let cachedPCA := lookupFresh pcaTimestamp now pcaCache (cacheKey k) in
  let '(pcaCache', obtained) :=
    obtainPcaResult now' pcaCache (cacheKey k) cachedPCA reply in
  let outcome :=
    match obtained with
    | Rejected e => Rejected e
    | Fulfilled pcaResult =>
        if negb (truthy (data_points pcaResult))
           || negb (isArray (data_points pcaResult))
        then Rejected (Error "Invalid PCA response: data_points not found")
        else
          Fulfilled
            {| projFeatures := featureColumns v;
               projRows :=
                 dataWithPCA (data v) (arrayItems (data_points pcaResult));
               projVariance := variance_explained pcaResult |}
    end in
  {| pcaCacheAfter := pcaCache';
     requested := bool_decide (cachedPCA = None);
     handed := outcome;
     viewAfter :=
       {| data := data v; loading := loading v; loadingPCA := false;
          error := match outcome with
                   | Rejected e => Some (messageOf e)
                   | Fulfilled _ => None
                   end;
          featureColumns := featureColumns v;
          progressCurrent := progressCurrent v;
          progressTotal := progressTotal v |} |}.

(** ** Notions used to state the properties *)

(** Whether [fetchSubject] fulfils or rejects is decided by the response
    alone; the shared column set only shapes the rows. *)
Definition succeeds (response : Fetched FeatureMatrixResponse) : bool :=
  match snd (fetchSubject [] response) with
  | Fulfilled _ => true
  | Rejected _ => false
  end.

(** The raw rows that a response contributes to the table. *)
Definition rawRows (response : Fetched FeatureMatrixResponse)
    : list RawRow :=
  match response with
  | Responded true _ (Some result) => arrayItems (rows result)
  | _ => []
  end.

(** The identity of a row on display and of a returned point. *)
Definition rowIdentity (r : SubjectEmotionFeatureRow) : Z * string :=
  (subjectId r, emotion r).

Definition pointIdentity (item : Point.t) : Z * string :=
  (Point.subject_id item, Point.emotion item).

(** What one joined row is, in terms of the rows on display. *)
Definition joinedFrom (data : list SubjectEmotionFeatureRow)
    (item : Point.t) (r : SubjectEmotionFeatureRow) : Prop :=
  subjectId r = Point.subject_id item
  ∧ emotion r = Point.emotion item
  ∧ color r = Point.color item
  ∧ pc1 r = Some (Point.pc1 item)
  ∧ pc2 r = Some (Point.pc2 item)
  ∧ ((∃ i d, data !! i = Some d
             ∧ rowIdentity d = pointIdentity item
             ∧ (∀ j d', (j < i)%nat → data !! j = Some d' →
                        rowIdentity d' ≠ pointIdentity item)
             ∧ features r = features d)
     ∨ ((∀ d, d ∈ data → rowIdentity d ≠ pointIdentity item)
        ∧ features r = ∅)).

(** The sentence of the specification: every row on display is found
    again, under its subject id and emotion, among the joined rows. *)
Definition join_passes_every_row_through : Prop :=
  ∀ (data : list SubjectEmotionFeatureRow) (data_points : list Point.t)
    (d : SubjectEmotionFeatureRow),
    d ∈ data →
    ∃ r, r ∈ dataWithPCA data data_points ∧ rowIdentity r = rowIdentity d.

(** ** Concrete inputs *)

(** A view with nothing loaded. *)
Definition emptyView : View :=
  {| data := []; loading := true; loadingPCA := false; error := None;
     featureColumns := []; progressCurrent := 0%nat;
     progressTotal := 0%nat |}.

(** Three rows on display, for subjects 1, 2 and 3. *)
Definition shownRow (s : Z) : SubjectEmotionFeatureRow :=
  {| subjectId := s; emotion := "Fear"; color := "#d62728";
     features := {["ECG_mean" := 70 + s]}; pc1 := None; pc2 := None |}.

Definition threeRows : list SubjectEmotionFeatureRow :=
  [shownRow 1; shownRow 2; shownRow 3].

(** A projection with points for subjects 1 and 2 only. *)
Definition pointFor (s : Z) : Point.t :=
  {| Point.subject_id := s; Point.emotion := "Fear";
     Point.color := "#d62728"; Point.pc1 := 4 * s; Point.pc2 := - s |}.

Definition twoPoints : list Point.t := [pointFor 1; pointFor 2].

(** A PCA payload without its [data_points] field. *)
Definition pointlessResult : FrequencyPCAResponse :=
  {| variance_explained := (60, 25); data_points := JUndefined |}.

(** ** Notions used to state the scheduler's properties *)

(** The subjects whose fetch is pending. *)
Definition awaitedSubject (w : Worker) : option Z :=
  match w with
  | Awaiting subjectId => Some subjectId
  | Resolved => None
  end.

Definition awaited (b : Batch) : list Z := omap awaitedSubject (inFlight b).

(** The variables of [fetchFeatureMatrix] before the first worker is
    started. *)
Definition initialBatch (v : View) (subjectIds : list Z) : Batch :=
  {| queue := subjectIds; inFlight := []; allRows := [];
     featureCols := []; completedCount := 0%nat;
     view := {| data := []; loading := true; loadingPCA := loadingPCA v;
                error := None; featureColumns := featureColumns v;
                progressCurrent := 0%nat;
                progressTotal := length subjectIds |};
     published := [0%nat]; consoleErrors := [] |}.

(** The continuations of the fetches for the subjects of [settled], run
    one after the other in that order. *)
Definition sequential (fetch : Z → Fetched FeatureMatrixResponse)
    (settled : list Z) (b : Batch) : Batch :=
  foldl (λ acc subjectId, afterFetch subjectId (fetch subjectId) acc)
    b settled.

(** A row without its features. *)
Definition bare (r : SubjectEmotionFeatureRow) : SubjectEmotionFeatureRow :=
  {| subjectId := subjectId r; emotion := emotion r; color := color r;
     features := ∅; pc1 := pc1 r; pc2 := pc2 r |}.

(** The rows, without features, that the response for one subject
    contributes. *)
Definition bareRowsOf (fetch : Z → Fetched FeatureMatrixResponse)
    (subjectId : Z) : list SubjectEmotionFeatureRow :=
  toFeatureRow [] <$> rawRows (fetch subjectId).

(** What holds of a batch once the fetches for the subjects of [settled]
    have settled, in that order: the accumulators are those of the
    sequential loop over [settled]; there is one slot per worker; while
    the queue is not empty every worker awaits a fetch; and the subjects
    taken from the queue, a prefix of the list, are the settled and the
    awaited ones. *)
Definition scheduled (fetch : Z → Fetched FeatureMatrixResponse)
    (v : View) (subjectIds settled : list Z) (b : Batch) : Prop :=
  b = setQueueAndSlots (sequential fetch settled (initialBatch v subjectIds))
        (queue b) (inFlight b)
  ∧ length (inFlight b) = Nat.min CONCURRENCY_LIMIT (length subjectIds)
  ∧ (queue b = [] ∨ length (awaited b) = length (inFlight b))
  ∧ ∃ taken, subjectIds = taken ++ queue b
             ∧ taken ≡ₚ settled ++ awaited b.

(** The subject's fetch is fulfilled. *)
Definition fulfilled (fetch : Z → Fetched FeatureMatrixResponse)
    (subjectId : Z) : bool :=
  succeeds (fetch subjectId).

Definition failed (fetch : Z → Fetched FeatureMatrixResponse)
    (subjectId : Z) : bool :=
  negb (succeeds (fetch subjectId)).

(** The row was built from a raw row with the column set [cols], or
    before any column set was there. *)
Definition builtWith (cols : list string) (r : SubjectEmotionFeatureRow)
    : Prop :=
  ∃ item, r = toFeatureRow [] item ∨ r = toFeatureRow cols item.

(** The sentence of the specification on progress: when the batch ends,
    every subject, failed or not, has been counted, and the count last
    published is the batch total. *)
Definition progress_reaches_total : Prop :=
  ∀ (fetch : Z → Fetched FeatureMatrixResponse) (v : View)
    (subjectIds : list Z) (sched : list nat) (b : Batch),
    run fetch sched (dispatch v subjectIds) = Some b →
    allResolved b = true →
    completedCount b = length subjectIds
    ∧ last (published b) = Some (length subjectIds).

(** A raw row for one subject, with one numeric and one textual field. *)
Definition fearRow (subjectId : Z) : RawRow :=
  {| Subject := subjectId; Emotion := "Fear"; _color := "#d62728";
     fields := <["ECG_quality" := FStr "good"]>
                 {["ECG_mean" := FNum (70 + subjectId)]} |}.

(** A service that answers every subject but subject 2, for which it
    returns status 500. *)
Definition flakyService (subjectId : Z) : Fetched FeatureMatrixResponse :=
  if subjectId =? 2 then Responded false 500 None
  else
    Responded true 200
      (Some {| columns := Some ["Subject"; "Emotion"; "_color"; "ECG_mean";
                                "ECG_quality"];
               rows := JArray [fearRow subjectId] |}).

(** The batch for subjects 1 to 7 after the fetches of workers 0, 0 and
    4 have settled, and the batch for subjects 1, 2 and 3 after all
    three fetches have settled. *)
Definition afterThreeOfSeven : Batch :=
  Eval vm_compute in
    default (initialBatch emptyView [])
      (run flakyService [0; 0; 4]%nat
         (dispatch emptyView [1; 2; 3; 4; 5; 6; 7])).

Definition flakyRunOfThree : Batch :=
  Eval vm_compute in
    default (initialBatch emptyView [])
      (run flakyService [0; 1; 2]%nat (dispatch emptyView [1; 2; 3])).




(** The batch for subjects 1, 2 and 3 after the first fetch has
    settled. *)
Definition flakyAfterFirst : Batch :=
  Eval vm_compute in
    default (initialBatch emptyView [])
      (run flakyService [0]%nat (dispatch emptyView [1; 2; 3])).



(** ** Notions used to state further properties of the key *)

(** The character occurs in the string. *)
Fixpoint mentions (c : Ascii.ascii) (s : string) : bool :=
  match s with
  | EmptyString => false
  | String a r => Ascii.eqb a c || mentions c r
  end.

(** A name that can be told apart inside a key: it is not empty and has
    neither the separator of the lists nor the separator of the key. *)
Definition plainName (s : string) : bool :=
  negb (String.eqb s "") && negb (mentions ","%char s) && negb (mentions ":"%char s).

(** ** What the feature table shows *)

(** The four returns of [ComprehensiveFeatureTable]: the progress
    placeholder with its two counters and the number of rows loaded, the
    error, the empty placeholder, or the table with its rows and columns
    and with or without the PCA button.  The percentage of the progress
    bar is not modelled. *)
Inductive Shown : Type :=
| ShowProgress (current total rowsLoaded : nat)
| ShowError (message : string)
| ShowNoData
| ShowTable (rows : list SubjectEmotionFeatureRow) (columns : list string)
    (pcaButton : bool).

(** The chain [if (loading) ... if (error) ... if (data.length === 0)]
    and the condition of the button; [error] is tested for truthiness,
    so an empty message does not count. *)
Definition renderTable (onGeneratePCA : bool) (v : View) : Shown :=
  if loading v then
    ShowProgress (progressCurrent v) (progressTotal v) (length (data v))
  else
    match error v with
    | Some message =>
        if negb (String.eqb message "") then ShowError message
        else if bool_decide (length (data v) = 0%nat) then ShowNoData
        else ShowTable (data v) (featureColumns v)
               (onGeneratePCA && bool_decide (2 ≤ length (featureColumns v))%nat
                && bool_decide (0 < length (data v))%nat)
    | None =>
        if bool_decide (length (data v) = 0%nat) then ShowNoData
        else ShowTable (data v) (featureColumns v)
               (onGeneratePCA && bool_decide (2 ≤ length (featureColumns v))%nat
                && bool_decide (0 < length (data v))%nat)
    end.

(** Every successful response that has a row array lists columns, and
    the feature columns among them are [cols]. *)
Definition uniformColumns (fetch : Z → Fetched FeatureMatrixResponse)
    (cols : list string) : Prop :=
  ∀ subjectId status result,
    fetch subjectId = Responded true status (Some result) →
    isArray (rows result) = true →
    List.filter isFeatureColumn <$> columns result = Some cols.

(** The batch for subjects 1, 2 and 3 when the fetch for subject 3
    settles first, then the one for subject 1, then the one for
    subject 2. *)
Definition flakyRunOfThreeLastFirst : Batch :=
  Eval vm_compute in
    default (initialBatch emptyView [])
      (run flakyService [2; 0; 1]%nat (dispatch emptyView [1; 2; 3])).

(** ** The page around the table *)

(** [HomePage] keeps the projection it was handed as [featurePCAData]
    and plots its points. *)
Module Plotted.
Record t : Type := {
  subjectId : Z;
  emotion : string;
  color : string;
  pc1 : Z;
  pc2 : Z
}.
End Plotted.

Module FeaturePCAData.
Record t : Type := {
  features : list string;
  points : list Plotted.t;
  variance : Z * Z
}.
End FeaturePCAData.

Module HomePage.

(** The callback passed as [onGeneratePCA]: the new value of
    [featurePCAData], which is left as it was when the table data is
    empty.  [d.pc1 ?? 0] and [variance ?? [50, 50]] fill in what is
    absent. *)
Definition onGeneratePCA (featurePCAData : option FeaturePCAData.t)
    (features : list string) (tableData : list SubjectEmotionFeatureRow)
    (variance : option (Z * Z)) : option FeaturePCAData.t :=
  if bool_decide (0 < length tableData)%nat then
    Some {| FeaturePCAData.features := features;
            FeaturePCAData.points :=
              (λ d, {| Plotted.subjectId := subjectId d;
                       Plotted.emotion := emotion d;
                       Plotted.color := color d;
                       Plotted.pc1 := default 0 (pc1 d);
                       Plotted.pc2 := default 0 (pc2 d) |}) <$> tableData;
            FeaturePCAData.variance := default (50, 50) variance |}
  else featurePCAData.

(** The request that [loadData] makes: none without a study or without
    subjects, and otherwise one with
    [Math.max(Math.floor(5000 / n), 500) * n] as its limit. *)
Record QueryParams : Type := {
  studyNumber : Z;
  subjectIds : list Z;
  limit : Z
}.

Definition loadData (selectedStudy : option Z) (selectedSubjects : list Z)
    : option QueryParams :=
  match selectedStudy with
  | None => None
  | Some study =>
      if (study =? 0) || bool_decide (length selectedSubjects = 0%nat)
      then None
      else
        let n := Z.of_nat (length selectedSubjects) in
        let limitPerSubject := 5000 / n in
        Some {| studyNumber := study; subjectIds := selectedSubjects;
                limit := Z.max limitPerSubject 500 * n |}
  end.

End HomePage.

(** A point as the page plots it. *)
Definition plottedPoint (item : Point.t) : Plotted.t :=
  {| Plotted.subjectId := Point.subject_id item;
     Plotted.emotion := Point.emotion item;
     Plotted.color := Point.color item;
     Plotted.pc1 := Point.pc1 item;
     Plotted.pc2 := Point.pc2 item |}.

(** ** The signal selected in the FFT chart *)

Module FFTChart.

(** [availableFFTFeatures.includes(feature) ? feature :
    availableFFTFeatures[0] || 'ECG'] *)
Definition defaultFeature (availableColumns : list string)
    (feature : string) : string :=
  let availableFFTFeatures := fftFeatures availableColumns in
  if bool_decide (feature ∈ availableFFTFeatures) then feature
  else
    match availableFFTFeatures !! 0%nat with
    | Some first => if String.eqb first "" then "ECG" else first
    | None => "ECG"
    end.

(** The effect that resets the selection: the value of [selectedFeature]
    after it ran. *)
Definition resetSelection (availableColumns : list string)
    (selectedFeature : string) : string :=
  let availableFFTFeatures := fftFeatures availableColumns in
  if bool_decide (0 < length availableFFTFeatures)%nat
     && negb (bool_decide (selectedFeature ∈ availableFFTFeatures))
  then default selectedFeature (availableFFTFeatures !! 0%nat)
  else selectedFeature.

End FFTChart.





(** ** The summary line of the table *)

(** [Array.from(new Set(xs))]: the values of [xs] without repetition, in
    the order in which they first occur. *)
Definition arrayFromSet {A} `{EqDecision A} (xs : list A) : list A :=
  foldl (λ acc x, if bool_decide (x ∈ acc) then acc else acc ++ [x]) [] xs.

Definition uniqueSubjects (data : list SubjectEmotionFeatureRow) : list Z :=
  arrayFromSet (subjectId <$> data).

Definition uniqueEmotions (data : list SubjectEmotionFeatureRow)
    : list string :=
  arrayFromSet (emotion <$> data).

(** ** Paging of the raw-data table *)

(** [xs.slice(start, end)] for integer arguments: a negative index counts
    from the end of the array, and both indices are clamped to it. *)
Definition slice {A} (xs : list A) (start final : Z) : list A :=
  let len := Z.of_nat (length xs) in
  let relative i := if i <? 0 then Z.max (len + i) 0 else Z.min i len in
  let k := relative start in
  take (Z.to_nat (relative final - k)) (drop (Z.to_nat k) xs).

(** The hook [usePagination] of [hooks/useDataFetching.ts], for a positive
    whole number of items per page (the table passes 25).
    [Math.ceil(n / k)] is the least integer not below the quotient. *)
Module usePagination.

Definition totalPages {T} (items : list T) (itemsPerPage : positive) : Z :=
  - (- Z.of_nat (length items) / Z.pos itemsPerPage).

Definition paginatedItems {T} (items : list T) (itemsPerPage : positive)
    (currentPage : Z) : list T :=
  let start := (currentPage - 1) * Z.pos itemsPerPage in
  slice items start (start + Z.pos itemsPerPage).

(** The setters, as functions from the page shown to the next one. *)
Definition goToPage (totalPages page : Z) (currentPage : Z) : Z :=
  Z.max 1 (Z.min page totalPages).

Definition goToFirst (currentPage : Z) : Z := 1.

Definition goToLast (totalPages : Z) (currentPage : Z) : Z := totalPages.

Definition goToNext (totalPages : Z) (p : Z) : Z := Z.min (p + 1) totalPages.

Definition goToPrev (p : Z) : Z := Z.max (p - 1) 1.

Definition isFirstPage (currentPage : Z) : bool := currentPage =? 1.

Definition isLastPage (totalPages currentPage : Z) : bool :=
  currentPage =? totalPages.

(** What a user of the hook can call between two renders. *)
Inductive Call : Type :=
  | GoToPage (page : Z)
  | GoToFirst
  | GoToLast
  | GoToNext
  | GoToPrev.

Definition call (totalPages : Z) (currentPage : Z) (c : Call) : Z :=
  match c with
  | GoToPage page => goToPage totalPages page currentPage
  | GoToFirst => goToFirst currentPage
  | GoToLast => goToLast totalPages currentPage
  | GoToNext => goToNext totalPages currentPage
  | GoToPrev => goToPrev currentPage
  end.

(** A session with the hook: between two renders a setter is called, or
    the component renders again with another list of items, after which
    the effect on [items.length] has put the page back to 1 if the
    length differs. *)
Inductive Event (T : Type) : Type :=
  | Called (c : Call)
  | Rendered (items : list T).
Arguments Called {T} c.
Arguments Rendered {T} items.

Definition step {T} (itemsPerPage : positive) (s : list T * Z)
    (e : Event T) : list T * Z :=
  match e with
  | Called c => (s.1, call (totalPages s.1 itemsPerPage) s.2 c)
  | Rendered items =>
      (items, if bool_decide (length items = length s.1) then s.2 else 1)
  end.

(** The items and the page shown after a session; [useState(1)] gives
    the first page. *)
Definition session {T} (items : list T) (itemsPerPage : positive)
    (events : list (Event T)) : list T * Z :=
  foldl (step itemsPerPage) (items, 1) events.

End usePagination.

(** ** The rows of a batch, in the words of the specification *)


(** The feature columns that a response offers to a batch that has no
    column set yet: the columns listed by a successful response with a
    row array, the three identity columns left out. *)
Definition offeredColumns (response : Fetched FeatureMatrixResponse)
    : list string :=
  match response with
  | Responded true _ (Some result) =>
      match rows result, columns result with
      | JArray _, Some cols =>
          filter (λ col, col ∉ ["Subject"; "Emotion"; "_color"]) cols
      | _, _ => []
      end
  | _ => []
  end.

(** The column set in force once the fetches for the subjects of
    [arrived] have settled in that order: what the first of their
    responses that offers any column offers. *)
Definition columnsInForce (fetch : Z → Fetched FeatureMatrixResponse)
    (arrived : list Z) : list string :=
  default [] (head (filter (λ cols, cols ≠ [])
                      ((λ subjectId, offeredColumns (fetch subjectId))
                         <$> arrived))).

(** [r] is the table row of the raw row [item] under the column set
    [cols]: it has the subject, emotion and colour of [item], no
    projection, and as features exactly the fields of [item] that are
    named by [cols] and hold a number. *)
Definition rowOf (cols : list string) (item : RawRow)
    (r : SubjectEmotionFeatureRow) : Prop :=
  subjectId r = Subject item
  ∧ emotion r = Emotion item
  ∧ color r = _color item
  ∧ pc1 r = None
  ∧ pc2 r = None
  ∧ ∀ col x, features r !! col = Some x
             ↔ col ∈ cols ∧ fields item !! col = Some (FNum x).

(** [accumulated] holds exactly the rows of the subjects of [arrived]:
    it is made of one chunk per subject, in the order of [arrived]; the
    chunk of a subject has one row per raw row of its response, in the
    order of the response, under the column set in force when the
    response was processed, and is empty when the fetch failed. *)
Definition accumulatedInOrder (fetch : Z → Fetched FeatureMatrixResponse)
    (arrived : list Z) (accumulated : list SubjectEmotionFeatureRow)
    : Prop :=
  ∃ chunks : list (list SubjectEmotionFeatureRow),
    accumulated = concat chunks
    ∧ length chunks = length arrived
    ∧ ∀ k subjectId chunk,
        arrived !! k = Some subjectId →
        chunks !! k = Some chunk →
        Forall2 (rowOf (columnsInForce fetch (take (S k) arrived)))
          (rawRows (fetch subjectId)) chunk.

(** Who a row is about and how it is drawn. *)
Definition rowLabel (r : SubjectEmotionFeatureRow) : Z * string * string :=
  (subjectId r, emotion r, color r).

Definition rawLabel (item : RawRow) : Z * string * string :=
  (Subject item, Emotion item, _color item).

(** ** The component and every writer of its state *)

(** The [view] of a [Batch] is the React state as one call of
    [fetchFeatureMatrix] leaves it.  The component has one such state,
    and more than one call can be running: the effect starts a call
    whenever one of its dependencies changes, among them
    [subjectIds.join(',')], which the call itself changes when it sorts
    an unsorted [subjectIds] array in place, and a call that finds no
    fresh cache entry does not wait for an earlier one.  The state is
    also written by the handler of the PCA button.  A session threads
    the one state, and the module-level rows cache, through all of
    them. *)
Module ComprehensiveFeatureTable.

(** The variables of a call with the component's state in the place of
    the call's record of it. *)
Definition withView (v : View) (b : Batch) : Batch :=
  {| queue := queue b; inFlight := inFlight b; allRows := allRows b;
     featureCols := featureCols b; completedCount := completedCount b;
     view := v; published := published b;
     consoleErrors := consoleErrors b |}.

(** A call of [fetchFeatureMatrix] that dispatched a batch: its cache
    key, its variables, and whether it has run to its end. *)
Record Call : Type := {
  callKey : string;
  callBatch : Batch;
  callFinished : bool
}.

Record State : Type := {
  shown : View;
  featureMatrixCache : gmap string MatrixEntry;
  calls : list Call
}.

(** What happens to the component, one turn of the event loop at a
    time. *)
Inductive Event : Type :=
| EffectRuns (now : Z) (studyNumber : Z) (availableColumns : list string)
    (subjectIds : list Z)
| FetchSettles (call worker : nat) (response : Fetched FeatureMatrixResponse)
| CallEnds (call : nat) (now : Z)
| ClickBegins
| ClickEnds (failure : option Thrown)
| StoredElsewhere (key : string) (entry : MatrixEntry).

(** [useState] of the six state variables. *)
Definition mounted (featureMatrixCache : gmap string MatrixEntry) : State :=
  {| shown := {| data := []; loading := true; loadingPCA := false;
                 error := None; featureColumns := [];
                 progressCurrent := 0%nat; progressTotal := 0%nat |};
     featureMatrixCache := featureMatrixCache;
     calls := [] |}.

(** - [EffectRuns]: the effect calls [fetchFeatureMatrix], which runs up
      to its first suspension.
    - [FetchSettles]: the fetch awaited by a worker of a call settles
      with the given response, and the worker goes on as in [settle].
    - [CallEnds]: [Promise.all(inFlight)] of a call is fulfilled and the
      call runs to its end.
    - [ClickBegins], [ClickEnds]: the handler of the PCA button calls
      [setLoadingPCA(true)] and [setError(null)], and later, when it
      failed, [setError] with the message, and [setLoadingPCA(false)].
    - [StoredElsewhere]: another instance of the component writes the
      rows cache, which the module shares. *)
Definition step (s : State) (e : Event) : option State :=
  match e with
  | EffectRuns now studyNumber availableColumns subjectIds =>
      match fetchFeatureMatrix_begin now (featureMatrixCache s) (shown s)
              studyNumber availableColumns subjectIds with
      | NothingToFetch v | ServedFromCache v =>
          Some {| shown := v; featureMatrixCache := featureMatrixCache s;
                  calls := calls s |}
      | Dispatched key b =>
          Some {| shown := view b;
                  featureMatrixCache := featureMatrixCache s;
                  calls := calls s ++ [{| callKey := key; callBatch := b;
                                          callFinished := false |}] |}
      end
  | FetchSettles j i response =>
      c ← calls s !! j;
      b' ← settle (λ _, response) i (withView (shown s) (callBatch c));
      Some {| shown := view b';
              featureMatrixCache := featureMatrixCache s;
              calls := <[j := {| callKey := callKey c; callBatch := b';
                                 callFinished := callFinished c |}]>
                         (calls s) |}
  | CallEnds j now =>
      c ← calls s !! j;
      if allResolved (callBatch c) && negb (callFinished c) then
        let b := withView (shown s) (callBatch c) in
        let '(cache', v') :=
          fetchFeatureMatrix_end now (callKey c) b (featureMatrixCache s) in
        Some {| shown := v'; featureMatrixCache := cache';
                calls := <[j := {| callKey := callKey c; callBatch := b;
                                   callFinished := true |}]> (calls s) |}
      else None
  | ClickBegins =>
      Some {| shown := {| data := data (shown s);
                          loading := loading (shown s);
                          loadingPCA := true; error := None;
                          featureColumns := featureColumns (shown s);
                          progressCurrent := progressCurrent (shown s);
                          progressTotal := progressTotal (shown s) |};
              featureMatrixCache := featureMatrixCache s;
              calls := calls s |}
  | ClickEnds failure =>
      Some {| shown := {| data := data (shown s);
                          loading := loading (shown s);
                          loadingPCA := false;
                          error := match failure with
                                   | Some e => Some (messageOf e)
                                   | None => error (shown s)
                                   end;
                          featureColumns := featureColumns (shown s);
                          progressCurrent := progressCurrent (shown s);
                          progressTotal := progressTotal (shown s) |};
              featureMatrixCache := featureMatrixCache s;
              calls := calls s |}
  | StoredElsewhere key entry =>
      Some {| shown := shown s;
              featureMatrixCache := <[key := entry]> (featureMatrixCache s);
              calls := calls s |}
  end.

(** The state after a sequence of events, from the mounting of the
    component on. *)
Definition session (featureMatrixCache : gmap string MatrixEntry)
    (events : list Event) : option State :=
  foldl (λ s e, s ≫= λ s, step s e) (Some (mounted featureMatrixCache))
    events.

Definition isEffectRun (e : Event) : bool :=
  match e with
  | EffectRuns _ _ _ _ => true
  | _ => false
  end.

(** Where a cache entry that the session did not write comes from. *)
Definition external (featureMatrixCache : gmap string MatrixEntry)
    (events : list Event) (entry : MatrixEntry) : Prop :=
  (∃ key, featureMatrixCache !! key = Some entry)
  ∨ ∃ key, StoredElsewhere key entry ∈ events.

(** A call of the session has not run to its end. *)
Definition busy (s : State) : Prop :=
  ∃ j c, calls s !! j = Some c ∧ callFinished c = false.

(** The rows on display are no rows, or the rows that one call of the
    session has accumulated so far, or the rows of one cache entry that
    the session did not write. *)
Definition rowsOfOneCall (featureMatrixCache : gmap string MatrixEntry)
    (events : list Event) (s : State) : Prop :=
  data (shown s) = []
  ∨ (∃ j c, calls s !! j = Some c ∧ data (shown s) = allRows (callBatch c))
  ∨ (∃ entry, external featureMatrixCache events entry
              ∧ data (shown s) = entryData entry).

(** Every entry of the rows cache was written outside the session, or
    holds, under the key of a call that has run to its end, the rows and
    the column set of that call. *)
Definition cacheOfEndedCalls (featureMatrixCache : gmap string MatrixEntry)
    (events : list Event) (s : State) : Prop :=
  ∀ key entry,
    ComprehensiveFeatureTable.featureMatrixCache s !! key = Some entry →
    external featureMatrixCache events entry
    ∨ ∃ j c, calls s !! j = Some c
             ∧ callFinished c = true
             ∧ callKey c = key
             ∧ entryData entry = allRows (callBatch c)
             ∧ entryColumns entry = featureCols (callBatch c).

(** What is shown when [loading] is off and no error is set. *)
Definition tableOrPlaceholder (onGeneratePCA : bool) (v : View) : Shown :=
  if bool_decide (length (data v) = 0%nat) then ShowNoData
  else ShowTable (data v) (featureColumns v)
         (onGeneratePCA && bool_decide (2 ≤ length (featureColumns v))%nat
          && bool_decide (0 < length (data v))%nat).

(** Two calls for subjects 2 and 1 overlap, as they do when the prop
    holds them in this order: the first call sorts the array, the effect
    runs again and dispatches a second batch before the first has
    cached anything.  Both fetches of the first call settle, then both
    of the second, then the calls end. *)
Definition twoRows (subjectId : Z) : Fetched FeatureMatrixResponse :=
  Responded true 200
    (Some {| columns := Some ["Subject"; "Emotion"; "_color"; "ECG_mean"];
             rows := JArray [fearRow subjectId] |}).

Definition overlap (n : nat) : list Event :=
  take n
    [ EffectRuns 1000 3 ["ECG"; "EDA"] [2; 1];
      EffectRuns 1001 3 ["ECG"; "EDA"] [1; 2];
      FetchSettles 0 0 (twoRows 1);
      FetchSettles 0 1 (twoRows 2);
      FetchSettles 1 0 (twoRows 1);
      FetchSettles 1 1 (twoRows 2);
      CallEnds 0 2000;
      CallEnds 1 2001 ].

Definition overlapEnded : State :=
  Eval vm_compute in default (mounted ∅) (session ∅ (overlap 8)).

End ComprehensiveFeatureTable.

(** * Properties *)

(** ** Sorting *)

Section SortedArrangement.

Context {A : Type} (R : relation A).
Context `{!RelDecision R, !Total R, !Transitive R, !AntiSymm (=) R}.

(** Any arrangement of [l] that is sorted is the one [merge_sort]
    computes, whatever algorithm produced it. *)
Lemma merge_sort_unique (l l' : list A) :
  Sorted R l' → l' ≡ₚ l → l' = merge_sort R l.
Proof.
  intros Hsorted Hperm.
  apply (Sorted_unique R); [done | by apply Sorted_merge_sort |].
  by rewrite merge_sort_Permutation.
Qed.

Lemma merge_sort_perm (l l' : list A) :
  l ≡ₚ l' → merge_sort R l = merge_sort R l'.
Proof.
  intros Hperm. apply merge_sort_unique.
  - by apply Sorted_merge_sort.
  - by rewrite merge_sort_Permutation.
Qed.

Lemma merge_sort_fixed (l : list A) : Sorted R l ↔ merge_sort R l = l.
Proof.
  split.
  - intros Hsorted. symmetry. by apply merge_sort_unique.
  - intros <-. by apply Sorted_merge_sort.
Qed.

End SortedArrangement.

Global Instance precedes_ascending_total : Total (precedes ascending).
Proof. intros a b. unfold precedes, ascending. lia. Qed.

Global Instance precedes_ascending_trans : Transitive (precedes ascending).
Proof. intros a b c. unfold precedes, ascending. lia. Qed.

Global Instance precedes_ascending_antisymm :
  AntiSymm (=) (precedes ascending).
Proof. intros a b. unfold precedes, ascending. lia. Qed.

Lemma sort_strings_unique (l l' : list string) :
  Sorted String.le l' → l' ≡ₚ l → l' = sort_strings l.
Proof. apply merge_sort_unique; apply _. Qed.

Lemma sort_with_ascending_unique (l l' : list Z) :
  Sorted (precedes ascending) l' → l' ≡ₚ l → l' = sort_with ascending l.
Proof. apply merge_sort_unique; apply _. Qed.

Lemma sort_strings_perm (l l' : list string) :
  l ≡ₚ l' → sort_strings l = sort_strings l'.
Proof. apply merge_sort_perm; apply _. Qed.

Lemma sort_with_ascending_perm (l l' : list Z) :
  l ≡ₚ l' → sort_with ascending l = sort_with ascending l'.
Proof. apply merge_sort_perm; apply _. Qed.

(** ** Cache key builder *)

Lemma getCacheKey_perm (studyNumber : Z) (features features' : list string)
    (subjectIds subjectIds' : list Z) :
  features ≡ₚ features' → subjectIds ≡ₚ subjectIds' →
  getCacheKey studyNumber features' subjectIds'
  = getCacheKey studyNumber features subjectIds.
Proof.
  intros Hf Hs. unfold getCacheKey.
  by rewrite (sort_strings_perm _ _ Hf), (sort_with_ascending_perm _ _ Hs).
Qed.

(** C6.  The key does not depend on the order in which the feature names
    or the subject ids are listed: reordering either list (or both)
    gives the same key.  The lists may also be empty. *)
Theorem getCacheKey_order_independent (studyNumber : Z)
    (features features' : list string) (subjectIds subjectIds' : list Z) :
  features ≡ₚ features' → subjectIds ≡ₚ subjectIds' →
  cacheKey (getCacheKey studyNumber features' subjectIds')
  = cacheKey (getCacheKey studyNumber features subjectIds).
Proof. intros Hf Hs. by rewrite (getCacheKey_perm _ _ _ _ _ Hf Hs). Qed.

(** The key of study 3 for two orderings of three features and three
    subject ids. *)
Lemma getCacheKey_order_independent_witness :
  ["ECG"; "EDA"; "temp"] ≡ₚ ["temp"; "ECG"; "EDA"]
  ∧ [1; 2; 10] ≡ₚ [10; 2; 1]
  ∧ cacheKey (getCacheKey 3 ["temp"; "ECG"; "EDA"] [10; 2; 1])
    = cacheKey (getCacheKey 3 ["ECG"; "EDA"; "temp"] [1; 2; 10]).
Proof.
  assert (Hf : ["ECG"; "EDA"; "temp"] ≡ₚ ["temp"; "ECG"; "EDA"]).
  { symmetry. apply (Permutation_cons_append ["ECG"; "EDA"] "temp"). }
  assert (Hs : [1; 2; 10] ≡ₚ [10; 2; 1]).
  { apply (Permutation_rev [1; 2; 10]). }
  split; [exact Hf | split; [exact Hs |]].
  exact (getCacheKey_order_independent 3 _ _ _ _ Hf Hs).
Defined.

(** The arrays are left as they were exactly when they were sorted
    already. *)
Lemma getCacheKey_features_kept (studyNumber : Z) (features : list string)
    (subjectIds : list Z) :
  featuresAfter (getCacheKey studyNumber features subjectIds) = features
  ↔ Sorted String.le features.
Proof. simpl. symmetry. apply merge_sort_fixed; apply _. Qed.

Lemma getCacheKey_subjectIds_kept (studyNumber : Z) (features : list string)
    (subjectIds : list Z) :
  subjectIdsAfter (getCacheKey studyNumber features subjectIds) = subjectIds
  ↔ Sorted (precedes ascending) subjectIds.
Proof. simpl. symmetry. apply merge_sort_fixed; apply _. Qed.

(** C9.  The key builder run on the feature list [EDA, ECG] and the
    subject ids [2, 1]: after the call both arrays of the caller hold
    their elements in another order than before, so the call has a side
    effect on its arguments. *)
Theorem getCacheKey_sorts_arguments_in_place :
  let call := getCacheKey 3 ["EDA"; "ECG"] [2; 1] in
  cacheKey call = "3:ECG,EDA:1,2"
  ∧ featuresAfter call = ["ECG"; "EDA"]
  ∧ featuresAfter call ≠ ["EDA"; "ECG"]
  ∧ subjectIdsAfter call = [1; 2]
  ∧ subjectIdsAfter call ≠ [2; 1].
Proof. vm_compute. repeat split; congruence. Qed.

(** ** Per-subject fetcher *)




(** ** PCA join *)

Lemma sameSubjectEmotion_spec (item : Point.t)
    (d : SubjectEmotionFeatureRow) :
  sameSubjectEmotion item d = true ↔ rowIdentity d = pointIdentity item.
Proof.
  unfold sameSubjectEmotion, rowIdentity, pointIdentity.
  rewrite andb_true_iff, !bool_decide_eq_true. split.
  - by intros [-> ->].
  - intros [= -> ->]. done.
Qed.

(** [Array.prototype.find] returns the first element that satisfies the
    predicate. *)
Lemma find_first {A} (p : A → bool) (l : list A) :
  match List.find p l with
  | Some d =>
      ∃ i, l !! i = Some d ∧ p d = true
           ∧ ∀ j d', (j < i)%nat → l !! j = Some d' → p d' = false
  | None => ∀ d, d ∈ l → p d = false
  end.
Proof.
  induction l as [| x l IH]; simpl.
  - intros d Hd. by apply elem_of_nil in Hd.
  - destruct (p x) eqn:Hx.
    + exists 0%nat. split; [done |]. split; [done |]. intros j d' Hj. lia.
    + destruct (List.find p l) as [d |].
      * destruct IH as (i & Hi & Hd & Hbefore).
        exists (S i). split; [done |]. split; [done |].
        intros [| j] d' Hj Hj'; simpl in Hj'.
        -- by injection Hj' as <-.
        -- apply (Hbefore j); [lia | done].
      * intros d [-> | Hd]%elem_of_cons; [done | by apply IH].
Qed.

Lemma joinPoint_joinedFrom (data : list SubjectEmotionFeatureRow)
    (item : Point.t) :
  joinedFrom data item (joinPoint data item).
Proof.
  unfold joinedFrom, joinPoint. simpl. repeat (split; [done |]).
  pose proof (find_first (sameSubjectEmotion item) data) as Hfind.
  destruct (List.find (sameSubjectEmotion item) data) as [d |]; simpl.
  - left. destruct Hfind as (i & Hi & Hd & Hbefore).
    exists i, d. split; [done |].
    split; [by apply sameSubjectEmotion_spec |]. split; [| done].
    intros j d' Hj Hj' Heq%sameSubjectEmotion_spec.
    by rewrite (Hbefore j d' Hj Hj') in Heq.
  - right. split; [| done].
    intros d Hd Heq%sameSubjectEmotion_spec. by rewrite (Hfind d Hd) in Heq.
Qed.

(** C1, as amended.  The join returns one row per returned point, in the
    order of the points: the row has the point's subject id, emotion,
    colour and coordinates, and the features of the first row on display
    with that subject id and emotion, or no features when there is none.
    The identities of the joined rows are therefore those of the points,
    not those of the rows on display. *)
Theorem dataWithPCA_one_row_per_point
    (data : list SubjectEmotionFeatureRow) (data_points : list Point.t) :
  Forall2 (joinedFrom data) data_points (dataWithPCA data data_points)
  ∧ rowIdentity <$> dataWithPCA data data_points
    = pointIdentity <$> data_points.
Proof.
  unfold dataWithPCA. split.
  - induction data_points as [| item pts IH]; simpl; constructor.
    + apply joinPoint_joinedFrom.
    + exact IH.
  - rewrite <- list_fmap_compose. by apply list_fmap_ext.
Qed.

(** The handler hands over exactly this join when the response passes
    the check. *)
Lemma generatePCA_hands_join (now now' : Z) (pcaCache : gmap string PcaEntry)
    (v : View) (studyNumber : Z) (availableColumns : list string)
    (subjectIds : list Z) (status : Z) (pcaResult : FrequencyPCAResponse)
    (points : list Point.t) :
  lookupFresh pcaTimestamp now pcaCache
    (cacheKey (getCacheKey studyNumber (fftFeatures availableColumns)
                 subjectIds)) = None →
  data_points pcaResult = JArray points →
  handed (generatePCA now now' pcaCache v studyNumber availableColumns
            subjectIds (Responded true status (Some pcaResult)))
  = Fulfilled {| projFeatures := featureColumns v;
                 projRows := dataWithPCA (data v) points;
                 projVariance := variance_explained pcaResult |}.
Proof.
  intros Hmiss Hpoints. unfold generatePCA. rewrite Hmiss. simpl.
  by rewrite Hpoints.
Qed.

Lemma dataWithPCA_identities (data : list SubjectEmotionFeatureRow)
    (data_points : list Point.t) :
  rowIdentity <$> dataWithPCA data data_points
  = pointIdentity <$> data_points.
Proof.
  unfold dataWithPCA. rewrite <- list_fmap_compose. by apply list_fmap_ext.
Qed.

(** C1, counterexample.  With rows on display for subjects 1, 2 and 3
    and returned points for subjects 1 and 2, the join yields two rows,
    for subjects 1 and 2: the row of subject 3 is not passed through. *)
Lemma pca_join_drops_unmatched_row :
  rowIdentity <$> threeRows = [(1, "Fear"); (2, "Fear"); (3, "Fear")]
  ∧ rowIdentity <$> dataWithPCA threeRows twoPoints
    = [(1, "Fear"); (2, "Fear")]
  ∧ ¬ join_passes_every_row_through.
Proof.
  split; [reflexivity |]. split.
  - by rewrite dataWithPCA_identities.
  - intros Hclaim.
    destruct (Hclaim threeRows twoPoints (shownRow 3)) as (r & Hr & Hid).
    { unfold threeRows. set_solver. }
    assert (Hin : rowIdentity r ∈ rowIdentity <$> dataWithPCA threeRows twoPoints).
    { apply list_elem_of_fmap. by exists r. }
    rewrite dataWithPCA_identities, Hid in Hin.
    unfold twoPoints in Hin. simpl in Hin.
    apply elem_of_cons in Hin as [Hin | Hin]; [discriminate Hin |].
    apply elem_of_cons in Hin as [Hin | Hin]; [discriminate Hin |].
    by apply elem_of_nil in Hin.
Qed.

(** ** PCA cache *)

(** Nothing is stored when the request does not succeed. *)
Lemma pca_cache_kept_on_http_error (now now' : Z)
    (pcaCache : gmap string PcaEntry) (v : View) (studyNumber : Z)
    (availableColumns : list string) (subjectIds : list Z) (status : Z)
    (body : option FrequencyPCAResponse) :
  lookupFresh pcaTimestamp now pcaCache
    (cacheKey (getCacheKey studyNumber (fftFeatures availableColumns)
                 subjectIds)) = None →
  let click := generatePCA now now' pcaCache v studyNumber availableColumns
                 subjectIds (Responded false status body) in
  pcaCacheAfter click = pcaCache
  ∧ handed click
    = Rejected (Error ("HTTP error! status: " +:+ pretty status)).
Proof. intros Hmiss. unfold generatePCA. rewrite Hmiss. done. Qed.

(** C5.  On a cache miss, an [ok] response whose payload has no
    [data_points] array is stored in the PCA cache under the query key
    and only then rejected as an invalid response: the operation fails
    and the cache has changed. *)
Theorem pca_cache_written_before_validation (now now' : Z)
    (pcaCache : gmap string PcaEntry) (v : View) (studyNumber : Z)
    (availableColumns : list string) (subjectIds : list Z) (status : Z)
    (pcaResult : FrequencyPCAResponse) :
  lookupFresh pcaTimestamp now pcaCache
    (cacheKey (getCacheKey studyNumber (fftFeatures availableColumns)
                 subjectIds)) = None →
  isArray (data_points pcaResult) = false →
  let key := cacheKey (getCacheKey studyNumber (fftFeatures availableColumns)
                         subjectIds) in
  let click := generatePCA now now' pcaCache v studyNumber availableColumns
                 subjectIds (Responded true status (Some pcaResult)) in
  handed click = Rejected (Error "Invalid PCA response: data_points not found")
  ∧ error (viewAfter click)
    = Some "Invalid PCA response: data_points not found"
  ∧ pcaCacheAfter click
    = <[key := {| entryResult := pcaResult; pcaTimestamp := now' |}]> pcaCache
  ∧ pcaCacheAfter click !! key
    = Some {| entryResult := pcaResult; pcaTimestamp := now' |}.
Proof.
  intros Hmiss Hpoints key click. subst key click.
  unfold generatePCA. rewrite Hmiss. simpl. rewrite Hpoints, orb_true_r.
  simpl. repeat split; try done. by rewrite lookup_insert_eq.
Qed.

(** The empty cache after a click answered with a payload that has no
    [data_points]. *)
Lemma pca_cache_written_before_validation_witness :
  lookupFresh pcaTimestamp 1000 (∅ : gmap string PcaEntry)
    (cacheKey (getCacheKey 3 (fftFeatures ["ECG"; "EDA"]) [1; 2])) = None
  ∧ isArray (data_points pointlessResult) = false
  ∧ (∅ : gmap string PcaEntry) !! "3:ECG,EDA:1,2" = None
  ∧ pcaCacheAfter
      (generatePCA 1000 1200 ∅ emptyView 3 ["ECG"; "EDA"] [1; 2]
         (Responded true 200 (Some pointlessResult)))
    !! cacheKey (getCacheKey 3 (fftFeatures ["ECG"; "EDA"]) [1; 2])
    = Some {| entryResult := pointlessResult; pcaTimestamp := 1200 |}.
Proof.
  split; [reflexivity |]. split; [reflexivity |]. split; [reflexivity |].
  exact (proj2 (proj2 (proj2
    (pca_cache_written_before_validation 1000 1200 ∅ emptyView 3
       ["ECG"; "EDA"] [1; 2] 200 pointlessResult eq_refl eq_refl)))).
Defined.

(** ** Scheduler: the worker slots *)

Lemma dispatch_startWorkers (v : View) (subjectIds : list Z) :
  dispatch v subjectIds
  = startWorkers (Nat.min CONCURRENCY_LIMIT (length subjectIds))
      (initialBatch v subjectIds).
Proof. reflexivity. Qed.

Lemma setQueueAndSlots_twice (b : Batch) q ws q' ws' :
  setQueueAndSlots (setQueueAndSlots b q ws) q' ws'
  = setQueueAndSlots b q' ws'.
Proof. reflexivity. Qed.

Lemma setQueueAndSlots_same (b : Batch) :
  setQueueAndSlots b (queue b) (inFlight b) = b.
Proof. by destruct b. Qed.

Lemma afterFetch_queue subjectId response b :
  queue (afterFetch subjectId response b) = queue b.
Proof.
  unfold afterFetch.
  by destruct (fetchSubject (featureCols b) response) as [? [? | ?]].
Qed.

Lemma afterFetch_inFlight subjectId response b :
  inFlight (afterFetch subjectId response b) = inFlight b.
Proof.
  unfold afterFetch.
  by destruct (fetchSubject (featureCols b) response) as [? [? | ?]].
Qed.

Lemma afterFetch_setQueueAndSlots subjectId response b q ws :
  afterFetch subjectId response (setQueueAndSlots b q ws)
  = setQueueAndSlots (afterFetch subjectId response b) q ws.
Proof.
  unfold afterFetch. simpl.
  by destruct (fetchSubject (featureCols b) response) as [? [? | ?]].
Qed.

Lemma sequential_setQueueAndSlots fetch settled b q ws :
  sequential fetch settled (setQueueAndSlots b q ws)
  = setQueueAndSlots (sequential fetch settled b) q ws.
Proof.
  revert b. induction settled as [| subjectId settled IH]; intros b.
  - done.
  - unfold sequential in *. simpl.
    by rewrite afterFetch_setQueueAndSlots, IH.
Qed.

Lemma sequential_snoc fetch settled subjectId b :
  sequential fetch (settled ++ [subjectId]) b
  = afterFetch subjectId (fetch subjectId) (sequential fetch settled b).
Proof. unfold sequential. by rewrite foldl_snoc. Qed.

(** The loop that starts the workers takes subjects from the head of the
    queue, in order, one per worker. *)
Lemma startWorkers_spec (n : nat) (b : Batch) :
  (n ≤ length (queue b))%nat →
  startWorkers n b
  = setQueueAndSlots b (drop n (queue b))
      (inFlight b ++ (Awaiting <$> take n (queue b))).
Proof.
  revert b. induction n as [| n IH]; intros b Hn.
  - simpl. rewrite drop_0, app_nil_r. by rewrite setQueueAndSlots_same.
  - destruct b as [q ws rs cols cnt vw pub errs]. simpl in *.
    destruct q as [| subjectId q]; simpl in *; [lia |].
    unfold processNext. simpl. rewrite IH by (simpl; lia).
    simpl. unfold setQueueAndSlots. simpl. by rewrite <- app_assoc.
Qed.

Lemma dispatch_spec (v : View) (subjectIds : list Z) :
  dispatch v subjectIds
  = setQueueAndSlots (initialBatch v subjectIds)
      (drop CONCURRENCY_LIMIT subjectIds)
      (Awaiting <$> take CONCURRENCY_LIMIT subjectIds).
Proof.
  rewrite dispatch_startWorkers.
  rewrite startWorkers_spec by (unfold initialBatch; cbn [queue]; lia).
  change (queue (initialBatch v subjectIds)) with subjectIds.
  change (inFlight (initialBatch v subjectIds)) with (@nil Worker).
  cbn [app]. f_equal.
  - destruct (decide (CONCURRENCY_LIMIT ≤ length subjectIds)%nat).
    + by rewrite Nat.min_l.
    + rewrite Nat.min_r by lia. by rewrite !drop_ge by lia.
  - destruct (decide (CONCURRENCY_LIMIT ≤ length subjectIds)%nat).
    + by rewrite Nat.min_l.
    + rewrite Nat.min_r by lia. by rewrite !take_ge by lia.
Qed.

Lemma pending_awaited (b : Batch) : pending b = length (awaited b).
Proof.
  unfold pending, awaited.
  induction (inFlight b) as [| [subjectId |] ws IH]; simpl; [done | |];
    by rewrite IH.
Qed.

Lemma awaited_fmap_Awaiting (l : list Z) :
  omap awaitedSubject (Awaiting <$> l) = l.
Proof. induction l as [| x l IH]; csimpl; [done | by rewrite IH]. Qed.

Lemma allResolved_awaited (b : Batch) :
  allResolved b = true ↔ awaited b = [].
Proof.
  unfold allResolved, awaited.
  induction (inFlight b) as [| [subjectId |] ws IH]; simpl;
    [done | | done].
  split; intros; discriminate.
Qed.

(** Replacing the subject awaited by a worker, and resolving a worker. *)
Lemma awaited_insert_Awaiting (ws : list Worker) (i : nat)
    (subjectId next : Z) :
  ws !! i = Some (Awaiting subjectId) →
  subjectId :: omap awaitedSubject (<[i := Awaiting next]> ws)
  ≡ₚ next :: omap awaitedSubject ws.
Proof.
  revert i. induction ws as [| w ws IH]; intros [| i] Hi; csimpl in *;
    try done.
  - injection Hi as ->. csimpl. apply perm_swap.
  - destruct w as [other |]; csimpl.
    + etrans; [apply perm_swap |].
      etrans; [apply perm_skip, (IH i Hi) |]. apply perm_swap.
    + by apply IH.
Qed.

Lemma awaited_insert_Resolved (ws : list Worker) (i : nat) (subjectId : Z) :
  ws !! i = Some (Awaiting subjectId) →
  subjectId :: omap awaitedSubject (<[i := Resolved]> ws)
  ≡ₚ omap awaitedSubject ws.
Proof.
  revert i. induction ws as [| w ws IH]; intros [| i] Hi; csimpl in *;
    try done.
  - by injection Hi as ->.
  - destruct w as [other |]; csimpl.
    + etrans; [apply perm_swap |]. apply perm_skip, (IH i Hi).
    + by apply IH.
Qed.

(** What one transition does to the queue and to the worker slots. *)
Lemma settle_spec fetch (i : nat) (b b' : Batch) :
  settle fetch i b = Some b' ↔
  ∃ subjectId,
    inFlight b !! i = Some (Awaiting subjectId)
    ∧ b' = match queue b with
           | [] =>
               setQueueAndSlots (afterFetch subjectId (fetch subjectId) b)
                 [] (<[i := Resolved]> (inFlight b))
           | next :: rest =>
               setQueueAndSlots (afterFetch subjectId (fetch subjectId) b)
                 rest (<[i := Awaiting next]> (inFlight b))
           end.
Proof.
  unfold settle, processNext.
  destruct (inFlight b !! i) as [[subjectId |] |] eqn:Hi.
  - rewrite afterFetch_queue, afterFetch_inFlight.
    destruct (queue b) as [| next rest]; split.
    + intros [= <-]. by exists subjectId.
    + by intros (? & [= <-] & ->).
    + intros [= <-]. by exists subjectId.
    + by intros (? & [= <-] & ->).
  - split; [done | by intros (? & ? & _)].
  - split; [done | by intros (? & ? & _)].
Qed.

(** ** Scheduler: the invariant of a run *)

Section Runs.

Variable fetch : Z → Fetched FeatureMatrixResponse.
Variable v : View.
Variable subjectIds : list Z.

Lemma scheduled_dispatch : scheduled fetch v subjectIds [] (dispatch v subjectIds).
Proof.
  rewrite dispatch_spec. unfold scheduled, awaited. cbn [queue inFlight setQueueAndSlots].
  split; [done |]. split.
  - by rewrite length_fmap, length_take.
  - split.
    + right. by rewrite awaited_fmap_Awaiting, length_fmap.
    + exists (take CONCURRENCY_LIMIT subjectIds).
      split; [by rewrite take_drop |].
      by rewrite awaited_fmap_Awaiting.
Qed.

Lemma scheduled_settle (settled : list Z) (i : nat) (b b' : Batch) :
  scheduled fetch v subjectIds settled b →
  settle fetch i b = Some b' →
  ∃ subjectId,
    inFlight b !! i = Some (Awaiting subjectId)
    ∧ scheduled fetch v subjectIds (settled ++ [subjectId]) b'.
Proof.
  intros (Hacc & Hslots & Hbusy & taken & Htaken & Hperm) Hsettle.
  apply settle_spec in Hsettle as (subjectId & Hi & ->).
  exists subjectId. split; [done |].
  assert (Hseq : ∀ q ws,
    setQueueAndSlots (afterFetch subjectId (fetch subjectId) b) q ws
    = setQueueAndSlots
        (sequential fetch (settled ++ [subjectId])
           (initialBatch v subjectIds)) q ws).
  { intros q ws. rewrite sequential_snoc. rewrite Hacc at 1.
    by rewrite afterFetch_setQueueAndSlots, setQueueAndSlots_twice. }
  unfold awaited in *.
  destruct (queue b) as [| next rest] eqn:Hqueue.
  - unfold scheduled, awaited. cbn [queue inFlight setQueueAndSlots].
    split; [by rewrite Hseq |].
    split; [by rewrite length_insert |].
    split; [by left |].
    exists taken. split; [done |].
    rewrite Hperm, <- app_assoc. apply Permutation_app_head.
    symmetry. by apply awaited_insert_Resolved.
  - pose proof (awaited_insert_Awaiting _ _ _ next Hi) as Hswap.
    destruct Hbusy as [? | Hbusy]; [done |].
    unfold scheduled, awaited. cbn [queue inFlight setQueueAndSlots].
    split; [by rewrite Hseq |].
    split; [by rewrite length_insert |].
    split.
    + right. rewrite length_insert, <- Hbusy.
      apply Permutation_length in Hswap. simpl in Hswap. lia.
    + exists (taken ++ [next]). split; [by rewrite <- app_assoc |].
      rewrite Hperm, <- !app_assoc. apply Permutation_app_head.
      rewrite <- Permutation_cons_append. cbn [app].
      by rewrite Hswap.
Qed.

Lemma scheduled_run (sched : list nat) (settled : list Z) (b b' : Batch) :
  scheduled fetch v subjectIds settled b →
  run fetch sched b = Some b' →
  ∃ more, length more = length sched
          ∧ scheduled fetch v subjectIds (settled ++ more) b'.
Proof.
  revert settled b. induction sched as [| i sched IH]; intros settled b Hb.
  - intros [= <-]. exists []. by rewrite app_nil_r.
  - simpl. destruct (settle fetch i b) as [b1 |] eqn:Hsettle; [| done].
    intros Hrun.
    destruct (scheduled_settle _ _ _ _ Hb Hsettle) as (subjectId & _ & Hb1).
    destruct (IH _ _ Hb1 Hrun) as (more & Hlen & Hb').
    exists (subjectId :: more). split; [simpl; by rewrite Hlen |].
    by rewrite <- app_assoc in Hb'.
Qed.

(** Every state of a run from the dispatch of the batch. *)
Lemma scheduled_reachable (sched : list nat) (b : Batch) :
  run fetch sched (dispatch v subjectIds) = Some b →
  ∃ settled, length settled = length sched
             ∧ scheduled fetch v subjectIds settled b.
Proof.
  intros Hrun.
  destruct (scheduled_run _ _ _ _ scheduled_dispatch Hrun) as (more & ? & ?).
  by exists more.
Qed.

(** When all workers are resolved the queue is empty and every subject
    has settled. *)
Lemma scheduled_done (settled : list Z) (b : Batch) :
  scheduled fetch v subjectIds settled b →
  allResolved b = true →
  queue b = [] ∧ settled ≡ₚ subjectIds.
Proof.
  intros (_ & Hslots & Hbusy & taken & Htaken & Hperm) Hdone.
  apply allResolved_awaited in Hdone.
  assert (Hq : queue b = []).
  { destruct Hbusy as [? | Hbusy]; [done |].
    rewrite Hdone in Hbusy. simpl in Hbusy.
    rewrite <- Hbusy in Hslots.
    destruct (queue b) as [| next rest] eqn:Hqueue; [done |].
    rewrite Htaken, length_app, length_cons in Hslots.
    unfold CONCURRENCY_LIMIT in Hslots. lia. }
  split; [done |].
  rewrite Hq, app_nil_r in Htaken. rewrite Hdone, app_nil_r in Hperm.
  by rewrite Htaken, Hperm.
Qed.

End Runs.

(** ** Scheduler: the accumulators *)

Lemma bare_toFeatureRow (cols : list string) (item : RawRow) :
  bare (toFeatureRow cols item) = toFeatureRow [] item.
Proof. reflexivity. Qed.

(** Whether the fetch is fulfilled does not depend on the column set;
    the rows, features aside, do not either. *)
Lemma fetchSubject_outcome (cols : list string)
    (response : Fetched FeatureMatrixResponse) :
  (succeeds response = true
   ∧ ∃ captured rows,
       fetchSubject cols response = (captured, Fulfilled rows)
       ∧ bare <$> rows = toFeatureRow [] <$> rawRows response
       ∧ Forall (builtWith (default cols captured)) rows
       ∧ (cols ≠ [] → captured = None))
  ∨ (succeeds response = false
     ∧ rawRows response = []
     ∧ ∃ e, fetchSubject cols response = (None, Rejected e)).
Proof.
  assert (Hbare : ∀ cs (items : list RawRow),
    bare <$> (toFeatureRow cs <$> items) = toFeatureRow [] <$> items).
  { intros cs items. rewrite <- list_fmap_compose. by apply list_fmap_ext. }
  assert (Hbuilt : ∀ cs (items : list RawRow),
    Forall (builtWith cs) (toFeatureRow cs <$> items)).
  { intros cs items. apply Forall_fmap, Forall_true.
    intros item. exists item. by right. }
  destruct response as [| [|] status [result |]]; unfold succeeds; simpl;
    try (right; split; [done |]; split; [done |]; by eexists).
  left. split.
  { destruct (negb (truthy (rows result)) || negb (isArray (rows result)));
      [done | by destruct (columns result)]. }
  destruct (rows result) as [| | flag | z | s | | items] eqn:Hrows; simpl;
    try (exists None, []; repeat split; try done; by apply Forall_nil).
  - rewrite orb_true_r. exists None, []. repeat split; try done.
  - rewrite orb_true_r. exists None, []. repeat split; try done.
  - rewrite orb_true_r. exists None, []. repeat split; try done.
  - destruct cols as [| c cols].
    + destruct (columns result) as [cs |].
      * eexists _, _. split; [done |]. split; [apply Hbare |].
        split; [apply Hbuilt | done].
      * eexists _, _. split; [done |]. split; [apply Hbare |].
        split; [apply Hbuilt | done].
    + eexists _, _. split; [done |]. split; [apply Hbare |].
      split; [apply Hbuilt | done].
Qed.

Lemma filter_Permutation_bool {A} (f : A → bool) (l l' : list A) :
  l ≡ₚ l' → List.filter f l ≡ₚ List.filter f l'.
Proof.
  induction 1 as [| x l l' _ IH | x y l | l l' l'' _ IH1 _ IH2]; simpl.
  - done.
  - destruct (f x); [by apply perm_skip | done].
  - destruct (f x), (f y); try done. apply perm_swap.
  - by etrans.
Qed.

Lemma bareRowsOf_failed fetch (subjectId : Z) :
  fulfilled fetch subjectId = false → bareRowsOf fetch subjectId = [].
Proof.
  unfold fulfilled, bareRowsOf. intros Hfail.
  destruct (fetchSubject_outcome [] (fetch subjectId))
    as [[Hok _] | (_ & -> & _)]; [congruence | done].
Qed.

Lemma bind_bareRowsOf_fulfilled fetch (l : list Z) :
  l ≫= bareRowsOf fetch = List.filter (fulfilled fetch) l ≫= bareRowsOf fetch.
Proof.
  induction l as [| x l IH]; [done |]. rewrite bind_cons, IH.
  cbn [List.filter]. destruct (fulfilled fetch x) eqn:Hx.
  - by rewrite bind_cons.
  - by rewrite bareRowsOf_failed.
Qed.

(** The accumulators after the sequential loop over [settled]. *)
Lemma sequential_accumulators fetch (v : View) (subjectIds settled : list Z) :
  let b := sequential fetch settled (initialBatch v subjectIds) in
  completedCount b = length (List.filter (fulfilled fetch) settled)
  ∧ published b = seq 0 (S (completedCount b))
  ∧ (consoleErrors b).*1 = List.filter (failed fetch) settled
  ∧ bare <$> allRows b = settled ≫= bareRowsOf fetch
  ∧ Forall (builtWith (featureCols b)) (allRows b)
  ∧ error (view b) = None
  ∧ progressCurrent (view b) = completedCount b
  ∧ progressTotal (view b) = length subjectIds
  ∧ data (view b) = allRows b.
Proof.
  induction settled as [| subjectId settled IH] using rev_ind.
  - simpl. repeat split; done.
  - rewrite sequential_snoc.
    set (b := sequential fetch settled (initialBatch v subjectIds)) in *.
    simpl in IH.
    destruct IH as (Hcount & Hpub & Herrs & Hrows & Hbuilt & Herror & Hcur
                    & Htotal & Hdata).
    rewrite !List.filter_app, bind_app. simpl.
    unfold afterFetch, fulfilled, failed in *.
    destruct (fetchSubject_outcome (featureCols b) (fetch subjectId))
      as [(Hok & captured & rows & -> & Hbare & Hnew & Hkeep)
         | (Hfail & Hnone & e & ->)].
    + rewrite Hok. simpl. rewrite length_app, fmap_app. simpl.
      rewrite Hcount, Hpub, Herrs, Hrows, Hbare, !app_nil_r.
      assert (Hview : ∀ x, error (from_option setFeatureColumns id captured x)
                           = error x
                           ∧ progressTotal
                               (from_option setFeatureColumns id captured x)
                             = progressTotal x).
      { intros x. by destruct captured. }
      destruct (Hview (view b)) as [-> ->].
      repeat split; try done; try lia.
      * rewrite <- Hcount. symmetry.
        exact (seq_S (S (completedCount b)) 0).
      * apply Forall_app. split; [| done].
        destruct (decide (featureCols b = [])) as [Hempty | Hset].
        -- rewrite Hempty in Hbuilt. eapply Forall_impl; [exact Hbuilt |].
           intros r [item [-> | ->]]; exists item; by left.
        -- by rewrite (Hkeep Hset).
    + rewrite Hfail. simpl. rewrite fmap_app, !app_nil_r. simpl.
      rewrite Herrs. repeat split; try done.
      unfold bareRowsOf at 2. by rewrite Hnone, app_nil_r.
Qed.

(** The accumulators of every state of a run. *)
Lemma scheduled_accumulators fetch (v : View) (subjectIds settled : list Z)
    (b : Batch) :
  scheduled fetch v subjectIds settled b →
  completedCount b = length (List.filter (fulfilled fetch) settled)
  ∧ published b = seq 0 (S (completedCount b))
  ∧ (consoleErrors b).*1 = List.filter (failed fetch) settled
  ∧ bare <$> allRows b = settled ≫= bareRowsOf fetch
  ∧ Forall (builtWith (featureCols b)) (allRows b)
  ∧ error (view b) = None
  ∧ progressCurrent (view b) = completedCount b
  ∧ progressTotal (view b) = length subjectIds
  ∧ data (view b) = allRows b.
Proof.
  intros (Hacc & _).
  pose proof (sequential_accumulators fetch v subjectIds settled) as Hseq.
  simpl in Hseq. by rewrite Hacc.
Qed.

Lemma run_app fetch (sched sched' : list nat) (b : Batch) :
  run fetch (sched ++ sched') b
  = match run fetch sched b with
    | Some b' => run fetch sched' b'
    | None => None
    end.
Proof.
  revert b. induction sched as [| i sched IH]; intros b; simpl; [done |].
  by destruct (settle fetch i b).
Qed.

Lemma awaited_lookup (ws : list Worker) :
  omap awaitedSubject ws ≠ [] →
  ∃ i subjectId, ws !! i = Some (Awaiting subjectId).
Proof.
  induction ws as [| [subjectId |] ws IH]; csimpl; [done | |].
  - intros _. by exists 0%nat, subjectId.
  - intros Hne. destruct (IH Hne) as (i & subjectId & Hi).
    by exists (S i), subjectId.
Qed.

(** A worker that awaits a fetch can always take its transition,
    whatever the fetch brings. *)
Lemma settle_is_Some fetch (i : nat) (subjectId : Z) (b : Batch) :
  inFlight b !! i = Some (Awaiting subjectId) → is_Some (settle fetch i b).
Proof.
  intros Hi. unfold settle. rewrite Hi.
  by destruct (processNext (afterFetch subjectId (fetch subjectId) b)).
Qed.

Lemma awaited_length_le (ws : list Worker) :
  (length (omap awaitedSubject ws) ≤ length ws)%nat.
Proof. induction ws as [| [subjectId |] ws IH]; csimpl; lia. Qed.

(** From every state of a run, the fetches that are pending and the
    subjects still queued can all be settled, after which every worker
    is resolved. *)
Lemma run_completes fetch (v : View) (subjectIds : list Z) (n : nat) :
  ∀ (settled : list Z) (b : Batch),
    scheduled fetch v subjectIds settled b →
    (length (awaited b) + length (queue b))%nat = n →
    ∃ sched' b', run fetch sched' b = Some b'
                 ∧ allResolved b' = true
                 ∧ length sched' = n.
Proof.
  induction n as [| n IH]; intros settled b Hb Hn.
  - exists [], b. split; [done |]. split; [| done].
    apply allResolved_awaited. apply nil_length_inv. lia.
  - destruct (decide (awaited b = [])) as [Hnone | Hsome].
    { apply allResolved_awaited in Hnone.
      destruct (scheduled_done _ _ _ _ _ Hb Hnone) as [Hq _].
      apply allResolved_awaited in Hnone.
      rewrite Hnone, Hq in Hn. done. }
    destruct (awaited_lookup _ Hsome) as (i & subjectId & Hi).
    destruct (settle_is_Some fetch _ _ _ Hi) as [b1 Hsettle].
    destruct (scheduled_settle _ _ _ _ _ _ _ Hb Hsettle)
      as (subjectId' & _ & Hb1).
    assert (Hless : (length (awaited b1) + length (queue b1))%nat = n).
    { apply settle_spec in Hsettle as (sid & Hsid & ->).
      unfold awaited in *.
      destruct (queue b) as [| next rest] eqn:Hqueue;
        cbn [queue inFlight setQueueAndSlots].
      - pose proof (awaited_insert_Resolved _ _ _ Hsid) as Hperm.
        apply Permutation_length in Hperm. simpl in *. lia.
      - pose proof (awaited_insert_Awaiting _ _ _ next Hsid) as Hperm.
        apply Permutation_length in Hperm. simpl in *. lia. }
    destruct (IH _ _ Hb1 Hless) as (sched' & b' & Hrun & Hdone & Hlen).
    exists (i :: sched'), b'. simpl. rewrite Hsettle.
    split; [done |]. split; [done | by rewrite Hlen].
Qed.

(** The subjects settled, awaited and queued add up to the batch. *)
Lemma scheduled_lengths fetch (v : View) (subjectIds settled : list Z)
    (b : Batch) :
  scheduled fetch v subjectIds settled b →
  length subjectIds
  = (length settled + length (awaited b) + length (queue b))%nat.
Proof.
  intros (_ & _ & _ & taken & -> & Hperm).
  rewrite length_app. apply Permutation_length in Hperm.
  rewrite length_app in Hperm. lia.
Qed.

(** ** Scheduler: the claims *)

(** C3.  In every state of a run there is one slot per worker,
    [min(5, number of subjects)] of them; at most 5 fetches are pending;
    the number of pending fetches is [min(5, pending + queued)], so all
    workers are busy while a subject is queued; the queue is what is
    left of the subject list; and the worker whose fetch settles takes
    the head of the queue in the same transition, the other slots being
    untouched, or is resolved when the queue is empty. *)
Theorem workers_bounded_and_replenished
    (fetch : Z → Fetched FeatureMatrixResponse) (v : View)
    (subjectIds : list Z) (sched : list nat) (b : Batch) :
  run fetch sched (dispatch v subjectIds) = Some b →
  length (inFlight b) = Nat.min CONCURRENCY_LIMIT (length subjectIds)
  ∧ (pending b ≤ 5)%nat
  ∧ pending b = Nat.min 5 (pending b + length (queue b))
  ∧ (∃ taken, subjectIds = taken ++ queue b)
  ∧ ∀ i b', settle fetch i b = Some b' →
      match queue b with
      | next :: rest =>
          inFlight b' = <[i := Awaiting next]> (inFlight b)
          ∧ inFlight b' !! i = Some (Awaiting next)
          ∧ queue b' = rest
          ∧ pending b' = pending b
      | [] =>
          inFlight b' = <[i := Resolved]> (inFlight b)
          ∧ inFlight b' !! i = Some Resolved
          ∧ queue b' = []
          ∧ S (pending b') = pending b
      end.
Proof.
  intros Hrun.
  destruct (scheduled_reachable _ _ _ _ _ Hrun) as (settled & _ & Hb).
  pose proof (scheduled_lengths _ _ _ _ _ Hb) as Hlen.
  destruct Hb as (_ & Hslots & Hbusy & taken & Htaken & _).
  pose proof (awaited_length_le (inFlight b)) as Hle.
  rewrite !pending_awaited. unfold awaited in *.
  unfold CONCURRENCY_LIMIT in *.
  split; [done |]. split; [lia |]. split.
  { destruct Hbusy as [Hq | Hbusy]; [| lia].
    rewrite Hq in Hlen |- *. cbn [length] in *. lia. }
  split; [by exists taken |].
  intros i b' Hsettle. apply settle_spec in Hsettle as (subjectId & Hi & ->).
  pose proof (lookup_lt_Some _ _ _ Hi) as Hlt.
  destruct (queue b) as [| next rest];
    rewrite !pending_awaited; unfold awaited;
    cbn [queue inFlight setQueueAndSlots].
  - pose proof (awaited_insert_Resolved _ _ _ Hi) as Hperm.
    apply Permutation_length in Hperm. simpl in Hperm.
    split; [done |]. split; [by apply list_lookup_insert_eq |].
    split; [done | lia].
  - pose proof (awaited_insert_Awaiting _ _ _ next Hi) as Hperm.
    apply Permutation_length in Hperm. simpl in Hperm.
    split; [done |]. split; [by apply list_lookup_insert_eq |].
    split; [done | lia].
Qed.

(** Seven subjects, three fetches settled: worker 0 is on its third
    subject, worker 4 found the queue empty. *)
Lemma workers_bounded_and_replenished_witness :
  run flakyService [0; 0; 4]%nat (dispatch emptyView [1; 2; 3; 4; 5; 6; 7])
  = Some afterThreeOfSeven
  ∧ inFlight afterThreeOfSeven
    = [Awaiting 7; Awaiting 2; Awaiting 3; Awaiting 4; Resolved]
  ∧ (pending afterThreeOfSeven ≤ 5)%nat
  ∧ pending afterThreeOfSeven
    = Nat.min 5 (pending afterThreeOfSeven + length (queue afterThreeOfSeven)).
Proof.
  assert (Hrun : run flakyService [0; 0; 4]%nat
                   (dispatch emptyView [1; 2; 3; 4; 5; 6; 7])
                 = Some afterThreeOfSeven) by (vm_compute; reflexivity).
  pose proof (workers_bounded_and_replenished flakyService emptyView
                [1; 2; 3; 4; 5; 6; 7] [0; 0; 4]%nat _ Hrun) as H.
  split; [exact Hrun |]. split; [reflexivity |].
  exact (conj (proj1 (proj2 H)) (proj1 (proj2 (proj2 H)))).
Defined.

(** C2, counterexample.  Subjects 1, 2 and 3, the fetch for subject 2
    answered with status 500: the counts published are 0, 1, 2, and the
    batch ends with a count of 2 out of 3.  The failed subject is not
    counted and the total is never published. *)
Lemma progress_stops_short_of_total :
  run flakyService [0; 1; 2]%nat (dispatch emptyView [1; 2; 3])
  = Some flakyRunOfThree
  ∧ allResolved flakyRunOfThree = true
  ∧ published flakyRunOfThree = [0; 1; 2]%nat
  ∧ completedCount flakyRunOfThree = 2%nat
  ∧ progressTotal (view flakyRunOfThree) = 3%nat
  ∧ ¬ progress_reaches_total.
Proof.
  assert (Hrun : run flakyService [0; 1; 2]%nat (dispatch emptyView [1; 2; 3])
                 = Some flakyRunOfThree) by (vm_compute; reflexivity).
  split; [exact Hrun |]. do 4 (split; [reflexivity |]).
  intros Hclaim.
  destruct (Hclaim flakyService emptyView [1; 2; 3] [0; 1; 2]%nat _ Hrun)
    as [Hcount _]; [reflexivity |].
  discriminate Hcount.
Qed.

(** C2, as amended.  In every state of a run the counts published so far
    are 0, 1, ..., up to the current count, each publication after the
    first being made for a subject whose fetch was fulfilled; the view
    shows the current count and the batch total; every settled subject
    was either counted or logged as failed, so failed subjects are not
    counted; and when the batch has ended the count is the number of
    subjects whose fetch was fulfilled, which is the batch total exactly
    when no fetch failed. *)
Theorem progress_counts_fulfilled_fetches
    (fetch : Z → Fetched FeatureMatrixResponse) (v : View)
    (subjectIds : list Z) (sched : list nat) (b : Batch) :
  run fetch sched (dispatch v subjectIds) = Some b →
  published b = seq 0 (S (completedCount b))
  ∧ progressCurrent (view b) = completedCount b
  ∧ progressTotal (view b) = length subjectIds
  ∧ (completedCount b + length (consoleErrors b))%nat = length sched
  ∧ (allResolved b = true →
     completedCount b = length (List.filter (fulfilled fetch) subjectIds)
     ∧ (completedCount b = length subjectIds
        ↔ List.filter (failed fetch) subjectIds = [])).
Proof.
  intros Hrun.
  destruct (scheduled_reachable _ _ _ _ _ Hrun) as (settled & Hlen & Hb).
  destruct (scheduled_accumulators _ _ _ _ _ Hb)
    as (Hcount & Hpub & Herrs & _ & _ & _ & Hcur & Htotal & _).
  split; [done |]. split; [done |]. split; [done |]. split.
  { rewrite <- Hlen, <- (length_fmap fst (consoleErrors b)), Herrs, Hcount.
    apply filter_length. }
  intros Hdone.
  destruct (scheduled_done _ _ _ _ _ Hb Hdone) as [_ Hperm].
  assert (Hfulfilled : completedCount b
                       = length (List.filter (fulfilled fetch) subjectIds)).
  { rewrite Hcount. by apply Permutation_length, filter_Permutation_bool. }
  split; [done |].
  pose proof (filter_length (fulfilled fetch) subjectIds) as Hsum.
  fold (failed fetch) in Hsum. rewrite Hfulfilled. split.
  - intros Hall. apply nil_length_inv.
    unfold failed, fulfilled in *. lia.
  - intros Hnone. unfold failed, fulfilled in *.
    rewrite Hnone in Hsum. simpl in Hsum. lia.
Qed.

(** Three subjects, one failure: two are counted, one is logged. *)
Lemma progress_counts_fulfilled_fetches_witness :
  run flakyService [0; 1; 2]%nat (dispatch emptyView [1; 2; 3])
  = Some flakyRunOfThree
  ∧ published flakyRunOfThree = seq 0 (S (completedCount flakyRunOfThree))
  ∧ (completedCount flakyRunOfThree + length (consoleErrors flakyRunOfThree))%nat
    = 3%nat.
Proof.
  assert (Hrun : run flakyService [0; 1; 2]%nat (dispatch emptyView [1; 2; 3])
                 = Some flakyRunOfThree) by (vm_compute; reflexivity).
  pose proof (progress_counts_fulfilled_fetches flakyService emptyView
                [1; 2; 3] [0; 1; 2]%nat _ Hrun) as H.
  split; [exact Hrun |].
  exact (conj (proj1 H) (proj1 (proj2 (proj2 (proj2 H))))).
Defined.

(** A rejected fetch leaves every variable of the batch as it was and
    adds one line to the log. *)
Lemma afterFetch_failed (subjectId : Z)
    (response : Fetched FeatureMatrixResponse) (b : Batch) :
  succeeds response = false →
  ∃ e, afterFetch subjectId response b
       = {| queue := queue b; inFlight := inFlight b; allRows := allRows b;
            featureCols := featureCols b;
            completedCount := completedCount b; view := view b;
            published := published b;
            consoleErrors := consoleErrors b ++ [(subjectId, e)] |}.
Proof.
  intros Hfail. unfold afterFetch.
  destruct (fetchSubject_outcome (featureCols b) response)
    as [[Hok _] | (_ & _ & e & ->)]; [congruence |].
  by exists e.
Qed.

(** ** The shared column set *)

Lemma isFeatureColumn_spec (col : string) :
  isFeatureColumn col = true
  ↔ col ≠ "Subject" ∧ col ≠ "Emotion" ∧ col ≠ "_color".
Proof.
  unfold isFeatureColumn.
  rewrite !andb_true_iff, !negb_true_iff, !String.eqb_neq. tauto.
Qed.

(** [item[col]] for a feature column is a look-up among the fields of
    the index signature. *)
Lemma getProp_feature (item : RawRow) (col : string) :
  isFeatureColumn col = true → getProp item col = fields item !! col.
Proof.
  unfold isFeatureColumn, getProp.
  rewrite !andb_true_iff, !negb_true_iff. by intros [[-> ->] ->].
Qed.

(** The loop over the column set, from any starting object. *)
Lemma keepNumeric_fold (item : RawRow) (cols : list string)
    (acc : gmap string Z) (col : string) (x : Z) :
  foldl (keepNumeric item) acc cols !! col = Some x
  ↔ (col ∈ cols ∧ getProp item col = Some (FNum x))
    ∨ (acc !! col = Some x
       ∧ ¬ (col ∈ cols ∧ ∃ y, getProp item col = Some (FNum y))).
Proof.
  revert acc. induction cols as [| c cols IH]; intros acc; simpl.
  - split.
    + intros Hacc. right. split; [done |]. intros [Hin _].
      by apply elem_of_nil in Hin.
    + intros [[Hin _] | [Hacc _]]; [by apply elem_of_nil in Hin | done].
  - rewrite IH. unfold keepNumeric. rewrite !elem_of_cons.
    destruct (decide (col = c)) as [-> | Hne].
    + destruct (getProp item c) as [[y | s] |] eqn:Hc.
      * rewrite lookup_insert_eq. split.
        -- intros [[_ Hx] | [Hx _]]; left; split; auto; congruence.
        -- intros [[_ Hx] | [_ Hno]].
           ++ destruct (decide (c ∈ cols)); [left; by split |].
              right. split; [congruence |]. by intros [? _].
           ++ exfalso. apply Hno. split; [by left | by exists y].
      * split.
        -- intros [[_ ?] | [Hacc _]]; [done |].
           right. split; [done |]. by intros [_ [? ?]].
        -- intros [[_ ?] | [Hacc _]]; [done |].
           right. split; [done |]. by intros [_ [? ?]].
      * split.
        -- intros [[_ ?] | [Hacc _]]; [done |].
           right. split; [done |]. by intros [_ [? ?]].
        -- intros [[_ ?] | [Hacc _]]; [done |].
           right. split; [done |]. by intros [_ [? ?]].
    + assert (Hacc : ∀ acc' : gmap string Z,
        match getProp item c with
        | Some (FNum v) => <[c := v]> acc'
        | _ => acc'
        end !! col = acc' !! col).
      { intros acc'. destruct (getProp item c) as [[y | s] |]; [| done | done].
        by rewrite lookup_insert_ne. }
      rewrite Hacc. split.
      * intros [[Hin Hx] | [Hx Hno]]; [left; split; auto |].
        right. split; [done |]. intros [[? | Hin] Hy]; [done |].
        apply Hno. by split.
      * intros [[[? | Hin] Hx] | [Hx Hno]]; [done | left; by split |].
        right. split; [done |]. intros [Hin Hy]. apply Hno. split; auto.
Qed.

(** A row keeps exactly the fields named by the column set whose value
    is a number. *)
Lemma features_toFeatureRow (cols : list string) (item : RawRow)
    (col : string) (x : Z) :
  features (toFeatureRow cols item) !! col = Some x
  ↔ col ∈ cols ∧ getProp item col = Some (FNum x).
Proof.
  unfold toFeatureRow. simpl. rewrite keepNumeric_fold, lookup_empty.
  split; [by intros [? | [? _]] | by left].
Qed.









(** ** The accumulator, exactly *)

(** The filter of the specification is the filter of the code. *)
Lemma offered_filter (cols : list string) :
  filter (λ col, col ∉ ["Subject"; "Emotion"; "_color"]) cols
  = List.filter isFeatureColumn cols.
Proof.
  induction cols as [| col cols IH]; [done |].
  rewrite filter_cons. cbn [List.filter].
  destruct (isFeatureColumn col) eqn:Hcol.
  - apply isFeatureColumn_spec in Hcol as (H1 & H2 & H3).
    rewrite decide_True; [by rewrite IH |].
    rewrite !not_elem_of_cons. repeat split; try done. apply not_elem_of_nil.
  - rewrite decide_False; [done |]. intros Hnot.
    rewrite !not_elem_of_cons in Hnot. destruct Hnot as (H1 & H2 & H3 & _).
    assert (isFeatureColumn col = true) by (by apply isFeatureColumn_spec).
    congruence.
Qed.

Lemma offeredColumns_feature (response : Fetched FeatureMatrixResponse) :
  Forall (λ col, isFeatureColumn col = true) (offeredColumns response).
Proof.
  destruct response as [| [|] status [result |]]; simpl;
    try apply Forall_nil_2.
  destruct (rows result), (columns result); try apply Forall_nil_2.
  rewrite offered_filter. apply List.Forall_forall. intros col Hin.
  by apply List.filter_In in Hin as [_ ?].
Qed.

(** The row that the code builds is the row of the specification, and
    there is no other. *)
Lemma rowOf_toFeatureRow (cols : list string) (item : RawRow) :
  Forall (λ col, isFeatureColumn col = true) cols →
  rowOf cols item (toFeatureRow cols item).
Proof.
  intros Hcols. rewrite Forall_forall in Hcols.
  unfold rowOf. do 5 (split; [done |]). intros col x.
  rewrite features_toFeatureRow. split.
  - intros [Hin Hx]. split; [done |].
    rewrite <- getProp_feature; [done | by apply Hcols].
  - intros [Hin Hx]. split; [done |].
    rewrite getProp_feature; [done | by apply Hcols].
Qed.

Lemma rowOf_unique (cols : list string) (item : RawRow)
    (r r' : SubjectEmotionFeatureRow) :
  rowOf cols item r → rowOf cols item r' → r = r'.
Proof.
  intros (H1 & H2 & H3 & H4 & H5 & H6) (G1 & G2 & G3 & G4 & G5 & G6).
  destruct r, r'; simpl in *; subst. f_equal.
  apply map_eq. intros col. apply option_eq. intros x.
  by rewrite H6, G6.
Qed.

Lemma rowsOf_unique (cols : list string) (items : list RawRow)
    (rows rows' : list SubjectEmotionFeatureRow) :
  Forall2 (rowOf cols) items rows → Forall2 (rowOf cols) items rows' →
  rows = rows'.
Proof.
  intros Hrows. revert rows'.
  induction Hrows as [| item r items rows Hr _ IH]; intros rows' Hrows'.
  - by apply Forall2_nil_inv_l in Hrows'.
  - apply Forall2_cons_inv_l in Hrows' as (r' & rest & Hr' & Hrest & ->).
    f_equal; [by eapply rowOf_unique | by apply IH].
Qed.

(** There is one accumulator that holds exactly the rows of the subjects
    of [arrived]. *)
Lemma accumulatedInOrder_unique fetch (arrived : list Z)
    (rows rows' : list SubjectEmotionFeatureRow) :
  accumulatedInOrder fetch arrived rows →
  accumulatedInOrder fetch arrived rows' →
  rows = rows'.
Proof.
  intros (chunks & -> & Hlen & Hchunks) (chunks' & -> & Hlen' & Hchunks').
  f_equal. apply list_eq. intros k.
  destruct (arrived !! k) as [subjectId |] eqn:Hk.
  - destruct (lookup_lt_is_Some_2 chunks k) as [chunk Hchunk];
      [rewrite Hlen; by eapply lookup_lt_Some |].
    destruct (lookup_lt_is_Some_2 chunks' k) as [chunk' Hchunk'];
      [rewrite Hlen'; by eapply lookup_lt_Some |].
    rewrite Hchunk, Hchunk'. f_equal.
    eapply rowsOf_unique; [by eapply Hchunks | by eapply Hchunks'].
  - apply lookup_ge_None in Hk.
    rewrite !lookup_ge_None_2; [done | lia | lia].
Qed.

Lemma columnsInForce_snoc fetch (arrived : list Z) (subjectId : Z) :
  columnsInForce fetch (arrived ++ [subjectId])
  = if decide (columnsInForce fetch arrived = [])
    then offeredColumns (fetch subjectId)
    else columnsInForce fetch arrived.
Proof.
  unfold columnsInForce. rewrite fmap_app, filter_app. cbn [fmap list_fmap].
  destruct (filter (λ cols, cols ≠ [])
              ((λ subjectId0, offeredColumns (fetch subjectId0)) <$> arrived))
    as [| first others] eqn:Hfilter.
  - cbn [app head default]. rewrite decide_True by done.
    rewrite filter_cons, filter_nil.
    by destruct (decide (offeredColumns (fetch subjectId) ≠ []))
      as [? | ->%dec_stable].
  - assert (Hfirst : first ≠ []).
    { assert (Hin : first ∈ first :: others) by left.
      rewrite <- Hfilter in Hin. by apply list_elem_of_filter in Hin as [? _]. }
    cbn [app head default]. by rewrite decide_False.
Qed.

Lemma columnsInForce_feature fetch (arrived : list Z) :
  Forall (λ col, isFeatureColumn col = true) (columnsInForce fetch arrived).
Proof.
  induction arrived as [| subjectId arrived IH] using rev_ind;
    [apply Forall_nil_2 |].
  rewrite columnsInForce_snoc.
  destruct (decide (columnsInForce fetch arrived = [])); [| done].
  apply offeredColumns_feature.
Qed.

(** One call of [fetchSubject], in the words of the specification. *)
Lemma fetchSubject_exact (cols : list string)
    (response : Fetched FeatureMatrixResponse) :
  Forall (λ col, isFeatureColumn col = true) cols →
  let cols' := if decide (cols = []) then offeredColumns response else cols in
  ∃ captured outcome,
    fetchSubject cols response = (captured, outcome)
    ∧ default cols captured = cols'
    ∧ match outcome with
      | Fulfilled rows => Forall2 (rowOf cols') (rawRows response) rows
      | Rejected _ => rawRows response = []
      end.
Proof.
  intros Hcols cols'.
  assert (Hcols' : Forall (λ col, isFeatureColumn col = true) cols').
  { subst cols'. destruct (decide (cols = [])); [| done].
    apply offeredColumns_feature. }
  assert (Hrows : ∀ items : list RawRow,
    Forall2 (rowOf cols') items (toFeatureRow cols' <$> items)).
  { intros items. apply Forall2_fmap_r, Forall_Forall2_diag, Forall_true.
    intros item. by apply rowOf_toFeatureRow. }
  assert (Hkept : cols ≠ [] → cols' = cols).
  { intros Hne. subst cols'. by rewrite decide_False. }
  destruct response as [| [|] status [result |]]; cbn [fetchSubject negb];
    try (eexists _, _; split; [done |]; split; [| done];
         subst cols'; by destruct (decide (cols = [])) as [-> |]).
  destruct (rows result) as [| | flag | z | str | | items] eqn:Hitems;
    cbn [truthy isArray negb orb arrayItems];
    try (rewrite ?orb_true_r; eexists _, _; split; [done |];
         split; [| by cbn [rawRows]; rewrite Hitems; apply Forall2_nil_2];
         subst cols'; cbn [offeredColumns]; rewrite Hitems;
         by destruct (decide (cols = [])) as [-> |]).
  destruct cols as [| c cols].
  - subst cols'. rewrite decide_True in * by done.
    cbn [offeredColumns] in *. rewrite Hitems in *.
    destruct (columns result) as [cs |].
    + rewrite offered_filter in *. eexists _, _. split; [done |].
      split; [done |]. cbn [rawRows]. rewrite Hitems. apply Hrows.
    + eexists _, _. split; [done |]. split; [done |].
      cbn [rawRows]. rewrite Hitems. apply Hrows.
  - rewrite Hkept in * by done. eexists _, _. split; [done |].
    split; [done |]. cbn [rawRows]. rewrite Hitems. apply Hrows.
Qed.

(** The column set and the accumulator after the sequential loop over
    the subjects of [arrived]. *)
Lemma sequential_rows fetch (v : View) (subjectIds arrived : list Z) :
  let b := sequential fetch arrived (initialBatch v subjectIds) in
  featureCols b = columnsInForce fetch arrived
  ∧ accumulatedInOrder fetch arrived (allRows b).
Proof.
  induction arrived as [| subjectId arrived IH] using rev_ind.
  - split; [done |]. exists []. split; [done |]. split; [done |].
    by intros k ? ? ?.
  - rewrite sequential_snoc.
    set (b := sequential fetch arrived (initialBatch v subjectIds)) in *.
    cbn zeta in IH. destruct IH as (Hcols & chunks & Hrows & Hlen & Hchunks).
    pose proof (columnsInForce_feature fetch arrived) as Hfeature.
    destruct (fetchSubject_exact _ (fetch subjectId) Hfeature)
      as (captured & outcome & Hfetch & Hset & Hout).
    rewrite <- columnsInForce_snoc in Hset, Hout.
    assert (Hnew : ∀ chunk,
      Forall2 (rowOf (columnsInForce fetch (arrived ++ [subjectId])))
        (rawRows (fetch subjectId)) chunk →
      accumulatedInOrder fetch (arrived ++ [subjectId])
        (allRows b ++ chunk)).
    { intros chunk Hchunk. exists (chunks ++ [chunk]).
      split; [rewrite concat_app, Hrows; simpl; by rewrite app_nil_r |].
      split; [rewrite !length_app; simpl; lia |].
      intros k s c Hs Hc.
      destruct (decide (k < length arrived)%nat) as [Hlt | Hge].
      - rewrite lookup_app_l in Hs by done.
        rewrite lookup_app_l in Hc by lia.
        rewrite take_app_le by lia. by eapply Hchunks.
      - assert (k = length arrived) as ->.
        { apply lookup_lt_Some in Hs. rewrite length_app in Hs.
          simpl in Hs. lia. }
        rewrite list_lookup_middle in Hs by done.
        rewrite <- Hlen, list_lookup_middle in Hc by done.
        injection Hs as <-. injection Hc as <-.
        rewrite take_ge by (rewrite length_app; simpl; lia). done. }
    unfold afterFetch. rewrite Hcols, Hfetch.
    destruct outcome as [rows | e]; cbn [featureCols allRows].
    + split; [done |]. by apply Hnew.
    + split; [done |].
      rewrite <- (app_nil_r (allRows b)). apply Hnew.
      rewrite Hout. apply Forall2_nil_2.
Qed.

(** Who the accumulated rows are about, from who the raw rows are
    about. *)
Lemma sequential_labels fetch (v : View) (subjectIds arrived : list Z)
    (b : Batch) :
  scheduled fetch v subjectIds arrived b →
  rowLabel <$> allRows b
  = arrived ≫= (λ subjectId, rawLabel <$> rawRows (fetch subjectId)).
Proof.
  intros Hb.
  destruct (scheduled_accumulators _ _ _ _ _ Hb) as (_ & _ & _ & Hrows & _).
  assert (Hbare : rowLabel <$> allRows b = rowLabel <$> (bare <$> allRows b)).
  { rewrite <- list_fmap_compose. by apply list_fmap_ext. }
  rewrite Hbare, Hrows. clear.
  induction arrived as [| subjectId arrived IH]; [done |].
  rewrite !bind_cons, fmap_app, IH. f_equal.
  unfold bareRowsOf. rewrite <- list_fmap_compose. by apply list_fmap_ext.
Qed.

Lemma rawRows_failed fetch (subjectId : Z) :
  fulfilled fetch subjectId = false → rawRows (fetch subjectId) = [].
Proof.
  unfold fulfilled. intros Hfail.
  destruct (fetchSubject_outcome [] (fetch subjectId))
    as [[Hok _] | (_ & -> & _)]; [congruence | done].
Qed.

(** C4.  In every state of a run, whatever fetches have failed so far:
    every worker that awaits a fetch can take its next transition; the
    run can be continued until all workers are resolved, after as many
    transitions as there are subjects; no error is set by the batch; and
    a fetch that fails only adds a line to the log.  With [arrived] the
    subjects whose fetch has settled, in the order of arrival, the
    subjects logged are those of [arrived] whose fetch failed, in that
    order, and the accumulator holds exactly the rows of the subjects of
    [arrived]: one row per raw row of each response, response after
    response, each with the subject, emotion and colour of the raw row
    and exactly its numeric fields that the column set in force names;
    a failed fetch contributes nothing.  When all workers are resolved,
    the queue is empty, [arrived] is the whole batch in some order, and
    the rows are about exactly the raw rows of the subjects whose fetch
    was fulfilled.  (No other list of rows holds exactly the rows of the
    subjects of [arrived]: lemma [accumulatedInOrder_unique].) *)
Theorem batch_survives_failed_fetches
    (fetch : Z → Fetched FeatureMatrixResponse) (v : View)
    (subjectIds : list Z) (sched : list nat) (b : Batch) :
  run fetch sched (dispatch v subjectIds) = Some b →
  (∀ i subjectId, inFlight b !! i = Some (Awaiting subjectId) →
                  is_Some (settle fetch i b))
  ∧ (∃ sched' b', run fetch (sched ++ sched') (dispatch v subjectIds) = Some b'
                  ∧ allResolved b' = true
                  ∧ length (sched ++ sched') = length subjectIds)
  ∧ error (view b) = None
  ∧ (∀ subjectId, failed fetch subjectId = true →
       ∃ e, afterFetch subjectId (fetch subjectId) b
            = {| queue := queue b; inFlight := inFlight b;
                 allRows := allRows b; featureCols := featureCols b;
                 completedCount := completedCount b; view := view b;
                 published := published b;
                 consoleErrors := consoleErrors b ++ [(subjectId, e)] |})
  ∧ ∃ arrived,
      length arrived = length sched
      ∧ arrived ⊆+ subjectIds
      ∧ (consoleErrors b).*1 = List.filter (failed fetch) arrived
      ∧ accumulatedInOrder fetch arrived (allRows b)
      ∧ featureCols b = columnsInForce fetch arrived
      ∧ (allResolved b = true →
         queue b = []
         ∧ length sched = length subjectIds
         ∧ arrived ≡ₚ subjectIds
         ∧ b = setQueueAndSlots
                 (sequential fetch arrived (initialBatch v subjectIds))
                 [] (inFlight b)
         ∧ rowLabel <$> allRows b
           ≡ₚ List.filter (fulfilled fetch) subjectIds
              ≫= (λ subjectId, rawLabel <$> rawRows (fetch subjectId))).
Proof.
  intros Hrun.
  destruct (scheduled_reachable _ _ _ _ _ Hrun) as (arrived & Hlen & Hb).
  pose proof (scheduled_lengths _ _ _ _ _ Hb) as Hsum.
  destruct (scheduled_accumulators _ _ _ _ _ Hb)
    as (_ & _ & Herrs & _ & _ & Herror & _).
  split; [intros i subjectId Hi; by eapply settle_is_Some |].
  split.
  { destruct (run_completes _ _ _ _ _ _ Hb eq_refl)
      as (sched' & b' & Hrun' & Hdone & Hlen').
    exists sched', b'. rewrite run_app, Hrun.
    split; [done |]. split; [done |]. rewrite length_app. lia. }
  split; [done |].
  split.
  { intros subjectId Hfail. apply afterFetch_failed.
    unfold failed in Hfail. by destruct (succeeds (fetch subjectId)). }
  exists arrived. split; [done |].
  split.
  { destruct Hb as (_ & _ & _ & taken & -> & Hperm).
    etrans; [| apply submseteq_inserts_r; reflexivity].
    rewrite Hperm. apply submseteq_inserts_r. reflexivity. }
  split; [done |].
  pose proof (sequential_rows fetch v subjectIds arrived) as [Hcols Hexact].
  destruct Hb as [Hacc Hrest].
  assert (Hb : scheduled fetch v subjectIds arrived b) by (by split).
  split; [by rewrite Hacc |]. split; [by rewrite Hacc |].
  intros Hdone.
  destruct (scheduled_done _ _ _ _ _ Hb Hdone) as [Hq Hperm].
  split; [done |]. split.
  { apply allResolved_awaited in Hdone. rewrite Hdone, Hq in Hsum.
    simpl in Hsum. lia. }
  split; [done |]. split; [by rewrite Hq in Hacc |].
  rewrite (sequential_labels _ _ _ _ _ Hb).
  etrans; [| apply bind_Permutation, filter_Permutation_bool, Hperm].
  assert (Heq : ∀ l : list Z,
    l ≫= (λ subjectId, rawLabel <$> rawRows (fetch subjectId))
    = List.filter (fulfilled fetch) l
      ≫= (λ subjectId, rawLabel <$> rawRows (fetch subjectId)));
    [| by rewrite <- Heq].
  clear. intros arrived.
  induction arrived as [| subjectId arrived IH]; [done |].
  rewrite bind_cons. cbn [List.filter].
  destruct (fulfilled fetch subjectId) eqn:Hok.
  - rewrite bind_cons. by rewrite IH.
  - by rewrite rawRows_failed.
Qed.

(** Three subjects, the fetch for subject 2 failing: the rows of
    subjects 1 and 3 are accumulated and subject 2 is logged. *)
Lemma batch_survives_failed_fetches_witness :
  run flakyService [0; 1; 2]%nat (dispatch emptyView [1; 2; 3])
  = Some flakyRunOfThree
  ∧ allRows flakyRunOfThree
    = [ {| subjectId := 1; emotion := "Fear"; color := "#d62728";
           features := {["ECG_mean" := 71]}; pc1 := None; pc2 := None |};
        {| subjectId := 3; emotion := "Fear"; color := "#d62728";
           features := {["ECG_mean" := 73]}; pc1 := None; pc2 := None |} ]
  ∧ (consoleErrors flakyRunOfThree).*1 = [2]
  ∧ error (view flakyRunOfThree) = None
  ∧ ∃ arrived,
      length arrived = 3%nat
      ∧ accumulatedInOrder flakyService arrived (allRows flakyRunOfThree).
Proof.
  assert (Hrun : run flakyService [0; 1; 2]%nat (dispatch emptyView [1; 2; 3])
                 = Some flakyRunOfThree) by (vm_compute; reflexivity).
  destruct (batch_survives_failed_fetches flakyService emptyView
              [1; 2; 3] [0; 1; 2]%nat _ Hrun)
    as (_ & _ & Herror & _ & arrived & Hlen & _ & _ & Hexact & _).
  split; [exact Hrun |]. split; [vm_compute; reflexivity |].
  split; [reflexivity |]. split; [exact Herror |].
  exists arrived. split; [exact Hlen | exact Hexact].
Defined.

(** ** The rows cache *)

(** The rows of a batch whose workers are all resolved. *)
Lemma resolved_batch_rows fetch (v : View) (subjectIds : list Z)
    (sched : list nat) (b : Batch) :
  run fetch sched (dispatch v subjectIds) = Some b →
  allResolved b = true →
  bare <$> allRows b
  ≡ₚ List.filter (fulfilled fetch) subjectIds ≫= bareRowsOf fetch.
Proof.
  intros Hrun Hdone.
  destruct (scheduled_reachable _ _ _ _ _ Hrun) as (settled & _ & Hb).
  destruct (scheduled_accumulators _ _ _ _ _ Hb) as (_ & _ & _ & Hrows & _).
  destruct (scheduled_done _ _ _ _ _ Hb Hdone) as [_ Hperm].
  rewrite Hrows, <- bind_bareRowsOf_fulfilled. by apply bind_Permutation.
Qed.

(** A batch is dispatched only for a query that is not empty, under the
    key of the query and over the sorted subject ids. *)
Lemma fetchFeatureMatrix_begin_dispatched (now : Z)
    (featureMatrixCache : gmap string MatrixEntry) (v : View)
    (studyNumber : Z) (availableColumns : list string) (subjectIds : list Z)
    (key : string) (b0 : Batch) :
  fetchFeatureMatrix_begin now featureMatrixCache v studyNumber
    availableColumns subjectIds = Dispatched key b0 →
  length subjectIds ≠ 0%nat
  ∧ length (fftFeatures availableColumns) ≠ 0%nat
  ∧ key = cacheKey (getCacheKey studyNumber (fftFeatures availableColumns)
                      subjectIds)
  ∧ b0 = dispatch v (sort_with ascending subjectIds).
Proof.
  unfold fetchFeatureMatrix_begin.
  destruct (bool_decide (length subjectIds = 0%nat)) eqn:Hids; [done |].
  destruct (bool_decide (length (fftFeatures availableColumns) = 0%nat))
    eqn:Hfft; [done |].
  apply bool_decide_eq_false in Hids, Hfft. simpl.
  destruct (lookupFresh _ _ _ _); [done |].
  by intros [= <- <-].
Qed.

(** C10.  When a batch that was dispatched for a query has all its
    workers resolved, the rows cache receives, under the key of the
    query, the accumulated rows and the column set, whichever fetches
    failed; these rows are those of the subjects whose fetch was
    fulfilled.  The same query, with its subject ids in any order, made
    less than [CACHE_DURATION_MS] later, is served these rows from the
    cache: no batch is dispatched for it, so no subject is fetched
    again. *)
Theorem incomplete_batch_is_cached
    (fetch : Z → Fetched FeatureMatrixResponse) (now0 now1 now2 : Z)
    (featureMatrixCache : gmap string MatrixEntry) (v v2 : View)
    (studyNumber : Z) (availableColumns : list string)
    (subjectIds subjectIds2 : list Z) (key : string) (b0 : Batch)
    (sched : list nat) (b : Batch) :
  fetchFeatureMatrix_begin now0 featureMatrixCache v studyNumber
    availableColumns subjectIds = Dispatched key b0 →
  run fetch sched b0 = Some b →
  allResolved b = true →
  subjectIds2 ≡ₚ subjectIds →
  now2 - now1 < CACHE_DURATION_MS →
  let cache' := fst (fetchFeatureMatrix_end now1 key b featureMatrixCache) in
  cache' !! key = Some {| entryData := allRows b;
                          entryColumns := featureCols b;
                          entryTimestamp := now1 |}
  ∧ bare <$> allRows b
    ≡ₚ List.filter (fulfilled fetch) subjectIds ≫= bareRowsOf fetch
  ∧ fetchFeatureMatrix_begin now2 cache' v2 studyNumber availableColumns
      subjectIds2
    = ServedFromCache
        {| data := allRows b; loading := false;
           loadingPCA := loadingPCA v2; error := error v2;
           featureColumns := featureCols b;
           progressCurrent := progressCurrent v2;
           progressTotal := progressTotal v2 |}.
Proof.
  intros Hbegin Hrun Hdone Hperm Hfresh cache'.
  apply fetchFeatureMatrix_begin_dispatched in Hbegin
    as (Hids & Hfft & Hkey & ->).
  assert (Hentry : cache' !! key
                   = Some {| entryData := allRows b;
                             entryColumns := featureCols b;
                             entryTimestamp := now1 |}).
  { subst cache'. simpl. by rewrite lookup_insert_eq. }
  split; [done |]. split.
  { rewrite (resolved_batch_rows _ _ _ _ _ Hrun Hdone).
    apply bind_Permutation, filter_Permutation_bool.
    apply merge_sort_Permutation. }
  unfold fetchFeatureMatrix_begin.
  rewrite (Permutation_length Hperm).
  rewrite (bool_decide_eq_false_2 _ Hids), (bool_decide_eq_false_2 _ Hfft).
  cbn [orb].
  rewrite (getCacheKey_perm studyNumber _ _ _ _ (reflexivity _)
             (symmetry Hperm)), <- Hkey.
  unfold lookupFresh. rewrite Hentry. simpl.
  by rewrite (bool_decide_eq_true_2 _ Hfresh).
Qed.

(** The batch for subjects 1, 2 and 3 with subject 2 failing is cached
    at time 2000; the query for subjects 3, 1, 2 at time 3000 is served
    the rows of subjects 1 and 3. *)
Lemma incomplete_batch_is_cached_witness :
  fetchFeatureMatrix_begin 1000 ∅ emptyView 3 ["ECG"; "EDA"] [1; 2; 3]
  = Dispatched "3:ECG,EDA:1,2,3" (dispatch emptyView [1; 2; 3])
  ∧ run flakyService [0; 1; 2]%nat (dispatch emptyView [1; 2; 3])
    = Some flakyRunOfThree
  ∧ allResolved flakyRunOfThree = true
  ∧ [3; 1; 2] ≡ₚ [1; 2; 3]
  ∧ 3000 - 2000 < CACHE_DURATION_MS
  ∧ subjectId <$> allRows flakyRunOfThree = [1; 3]
  ∧ fetchFeatureMatrix_begin 3000
      (fst (fetchFeatureMatrix_end 2000 "3:ECG,EDA:1,2,3" flakyRunOfThree ∅))
      emptyView 3 ["ECG"; "EDA"] [3; 1; 2]
    = ServedFromCache
        {| data := allRows flakyRunOfThree; loading := false;
           loadingPCA := loadingPCA emptyView; error := error emptyView;
           featureColumns := featureCols flakyRunOfThree;
           progressCurrent := progressCurrent emptyView;
           progressTotal := progressTotal emptyView |}.
Proof.
  assert (Hbegin : fetchFeatureMatrix_begin 1000 ∅ emptyView 3
                     ["ECG"; "EDA"] [1; 2; 3]
                   = Dispatched "3:ECG,EDA:1,2,3"
                       (dispatch emptyView [1; 2; 3]))
    by (vm_compute; reflexivity).
  assert (Hrun : run flakyService [0; 1; 2]%nat (dispatch emptyView [1; 2; 3])
                 = Some flakyRunOfThree) by (vm_compute; reflexivity).
  assert (Hperm : [3; 1; 2] ≡ₚ [1; 2; 3]).
  { apply (Permutation_cons_append [1; 2] 3). }
  assert (Hfresh : 3000 - 2000 < CACHE_DURATION_MS) by reflexivity.
  pose proof (incomplete_batch_is_cached flakyService 1000 2000 3000 ∅
                emptyView emptyView 3 ["ECG"; "EDA"] [1; 2; 3] [3; 1; 2]
                "3:ECG,EDA:1,2,3" (dispatch emptyView [1; 2; 3])
                [0; 1; 2]%nat flakyRunOfThree Hbegin Hrun eq_refl Hperm
                Hfresh) as H.
  split; [exact Hbegin |]. split; [exact Hrun |]. split; [reflexivity |].
  split; [exact Hperm |]. split; [exact Hfresh |]. split; [reflexivity |].
  exact (proj2 (proj2 H)).
Defined.

(** * Further properties *)

(** ** The key identifies the query *)

Lemma mentions_app (c : Ascii.ascii) (s1 s2 : string) :
  mentions c (s1 +:+ s2) = mentions c s1 || mentions c s2.
Proof.
  induction s1 as [| a s1 IH]; simpl; [done |].
  by rewrite IH, orb_assoc.
Qed.

(** A string is cut in one way only at the first occurrence of a
    character. *)
Lemma cut_unique (c : Ascii.ascii) (s1 s2 r1 r2 : string) :
  mentions c s1 = false → mentions c s2 = false →
  s1 +:+ String c r1 = s2 +:+ String c r2 →
  s1 = s2 ∧ r1 = r2.
Proof.
  revert s2. induction s1 as [| a s1 IH]; intros [| b s2]; simpl.
  - by intros _ _ [= ->].
  - intros _ [Hb _]%orb_false_elim [= <- _].
    by rewrite Ascii.eqb_refl in Hb.
  - intros [Ha _]%orb_false_elim _ [= -> _].
    by rewrite Ascii.eqb_refl in Ha.
  - intros [_ H1]%orb_false_elim [_ H2]%orb_false_elim [= -> Heq].
    by destruct (IH _ H1 H2 Heq) as [-> ->].
Qed.

Lemma concat_cons2 (sep : string) (x y : string) (l : list string) :
  String.concat sep (x :: y :: l)
  = x +:+ sep +:+ String.concat sep (y :: l).
Proof. reflexivity. Qed.

Lemma mentions_concat (c : Ascii.ascii) (sep : string) (l : list string) :
  mentions c sep = false →
  Forall (λ s, mentions c s = false) l →
  mentions c (String.concat sep l) = false.
Proof.
  intros Hsep. induction l as [| x [| y l] IH]; intros Hl.
  - done.
  - by apply Forall_cons_1 in Hl as [? _].
  - apply Forall_cons_1 in Hl as [Hx Hl].
    rewrite concat_cons2, !mentions_app, Hx, Hsep. by apply IH.
Qed.

(** Names that are not empty and have no comma can be read back from
    their comma-separated list. *)
Lemma concat_comma_inj (l l' : list string) :
  Forall (λ s, s ≠ "" ∧ mentions ","%char s = false) l →
  Forall (λ s, s ≠ "" ∧ mentions ","%char s = false) l' →
  String.concat "," l = String.concat "," l' → l = l'.
Proof.
  revert l'. induction l as [| x [| y l] IH]; intros l' Hl Hl' Heq.
  - destruct l' as [| x' [| y' l']]; [done | |].
    + apply Forall_cons_1 in Hl' as [[Hx' _] _]. simpl in Heq. congruence.
    + rewrite concat_cons2 in Heq. simpl in Heq.
      by destruct x'.
  - apply Forall_cons_1 in Hl as [[Hx Hcomma] _].
    destruct l' as [| x' [| y' l']].
    + simpl in Heq. congruence.
    + simpl in Heq. by subst.
    + rewrite concat_cons2 in Heq. simpl in Heq. subst x.
      rewrite mentions_app in Hcomma. simpl in Hcomma.
      by rewrite orb_true_r in Hcomma.
  - apply Forall_cons_1 in Hl as [[Hx Hcomma] Hl].
    destruct l' as [| x' [| y' l']].
    + rewrite concat_cons2 in Heq. simpl in Heq. by destruct x.
    + apply Forall_cons_1 in Hl' as [[_ Hcomma'] _].
      rewrite concat_cons2 in Heq. simpl in Heq. subst x'.
      rewrite mentions_app in Hcomma'. simpl in Hcomma'.
      by rewrite orb_true_r in Hcomma'.
    + apply Forall_cons_1 in Hl' as [[_ Hcomma'] Hl'].
      rewrite !concat_cons2 in Heq.
      apply cut_unique in Heq as [-> Heq]; [| done | done].
      f_equal. by apply IH.
Qed.

(** The decimal form of a number has digits and at most a sign. *)
Lemma pretty_N_char_plain (x : N) :
  pretty_N_char x ≠ ","%char ∧ pretty_N_char x ≠ ":"%char.
Proof. unfold pretty_N_char. by repeat case_match. Qed.

Lemma pretty_N_go_plain (x : N) (s : string) :
  s ≠ "" → mentions ","%char s = false → mentions ":"%char s = false →
  pretty_N_go x s ≠ ""
  ∧ mentions ","%char (pretty_N_go x s) = false
  ∧ mentions ":"%char (pretty_N_go x s) = false.
Proof.
  revert s. induction (N.lt_wf_0 x) as [x _ IH]; intros s Hs Hcomma Hcolon.
  assert (x = 0 ∨ 0 < x)%N as [-> | Hpos] by lia.
  - by rewrite pretty_N_go_0.
  - rewrite pretty_N_go_step by done.
    destruct (pretty_N_char_plain (x `mod` 10)) as [H1 H2].
    apply IH; [by apply N.div_lt | done | |]; simpl.
    + rewrite Hcomma, orb_false_r. by apply Ascii.eqb_neq.
    + rewrite Hcolon, orb_false_r. by apply Ascii.eqb_neq.
Qed.

Lemma pretty_N_plain (x : N) :
  pretty x ≠ "" ∧ mentions ","%char (pretty x) = false
  ∧ mentions ":"%char (pretty x) = false.
Proof.
  unfold pretty, pretty_N. case_decide as Hx; [done |].
  rewrite pretty_N_go_step by lia.
  destruct (pretty_N_char_plain (x `mod` 10)) as [H1 H2].
  apply pretty_N_go_plain; [done | |]; simpl; rewrite orb_false_r;
    by apply Ascii.eqb_neq.
Qed.

Lemma pretty_Z_plain (z : Z) :
  pretty z ≠ "" ∧ mentions ","%char (pretty z) = false
  ∧ mentions ":"%char (pretty z) = false.
Proof.
  destruct z as [| p | p].
  - done.
  - apply (pretty_N_plain (N.pos p)).
  - destruct (pretty_N_plain (N.pos p)) as (_ & H1 & H2).
    change (pretty (Z.neg p)) with (String "-" (pretty (N.pos p))).
    simpl. by rewrite H1, H2.
Qed.

(** The key can be read back: for feature names that are plain, equal
    keys come from the same study and the same sorted lists. *)
Lemma getCacheKey_inj (studyNumber studyNumber' : Z)
    (features features' : list string) (subjectIds subjectIds' : list Z) :
  Forall (λ s, plainName s = true) features →
  Forall (λ s, plainName s = true) features' →
  cacheKey (getCacheKey studyNumber features subjectIds)
  = cacheKey (getCacheKey studyNumber' features' subjectIds') →
  studyNumber = studyNumber'
  ∧ features ≡ₚ features'
  ∧ subjectIds ≡ₚ subjectIds'.
Proof.
  intros Hf Hf' Hkey. simpl in Hkey. unfold join, join_numbers in Hkey.
  assert (Hplain : ∀ l : list string,
    Forall (λ s, plainName s = true) l →
    Forall (λ s, s ≠ "" ∧ mentions ","%char s = false) (sort_strings l)
    ∧ Forall (λ s, mentions ":"%char s = false) (sort_strings l)).
  { intros l Hl. unfold sort_strings.
    rewrite !(merge_sort_Permutation String.le l).
    split; (eapply Forall_impl; [exact Hl |]); intros s;
      unfold plainName; rewrite !andb_true_iff, !negb_true_iff;
      intros [[Hne ?] ?]; [split |]; try done.
    by apply String.eqb_neq in Hne. }
  assert (Hids : ∀ l : list Z,
    Forall (λ s, s ≠ "" ∧ mentions ","%char s = false) (pretty <$> l)).
  { intros l. apply Forall_fmap, Forall_true. intros z. simpl.
    by destruct (pretty_Z_plain z) as (? & ? & _). }
  destruct (Hplain _ Hf) as [Hc Hcolon], (Hplain _ Hf') as [Hc' Hcolon'].
  destruct (pretty_Z_plain studyNumber) as (_ & _ & Hs).
  destruct (pretty_Z_plain studyNumber') as (_ & _ & Hs').
  apply cut_unique in Hkey as [Hstudy Hkey]; [| done | done].
  apply cut_unique in Hkey as [Hfeatures Hnumbers];
    [| by apply mentions_concat | by apply mentions_concat].
  split; [by apply (inj pretty) |].
  apply concat_comma_inj in Hfeatures; [| done | done].
  apply concat_comma_inj in Hnumbers; [| done | done].
  apply (inj (fmap pretty)) in Hnumbers.
  split.
  - rewrite <- (merge_sort_Permutation String.le features).
    rewrite <- (merge_sort_Permutation String.le features').
    unfold sort_strings in Hfeatures. by rewrite Hfeatures.
  - rewrite <- (merge_sort_Permutation (precedes ascending) subjectIds).
    rewrite <- (merge_sort_Permutation (precedes ascending) subjectIds').
    unfold sort_with in Hnumbers. by rewrite Hnumbers.
Qed.

Lemma fftFeatures_plain (availableColumns : list string) :
  Forall (λ s, plainName s = true) (fftFeatures availableColumns).
Proof.
  apply List.Forall_forall. intros s Hin.
  apply List.filter_In in Hin as [_ Hs%bool_decide_eq_true].
  unfold FFT_SUPPORTED_FEATURES in Hs.
  repeat (apply elem_of_cons in Hs as [-> | Hs]; [reflexivity |]).
  by apply elem_of_nil in Hs.
Qed.

(** X1.  Two queries of the feature table have the same cache key
    exactly when they are for the same study, the same supported signals
    and the same subjects, each up to order and with repetitions
    counted. *)
Theorem cacheKey_identifies_query (studyNumber studyNumber' : Z)
    (availableColumns availableColumns' : list string)
    (subjectIds subjectIds' : list Z) :
  cacheKey (getCacheKey studyNumber (fftFeatures availableColumns) subjectIds)
  = cacheKey (getCacheKey studyNumber' (fftFeatures availableColumns')
                subjectIds')
  ↔ studyNumber = studyNumber'
    ∧ fftFeatures availableColumns ≡ₚ fftFeatures availableColumns'
    ∧ subjectIds ≡ₚ subjectIds'.
Proof.
  split.
  - apply getCacheKey_inj; apply fftFeatures_plain.
  - intros (-> & Hf & Hs). by rewrite (getCacheKey_perm _ _ _ _ _ Hf Hs).
Qed.

(** ** The rows cache expires *)

(** X2.  Once the rows of a query are stored at time [now1], the same
    query (subject ids in any order) at time [now2] is served from the
    cache when [now2 - now1] is below [CACHE_DURATION_MS], and otherwise
    starts a new batch from scratch: an entry that is five minutes old
    or older is not used. *)
Theorem rows_cache_expires (now0 now1 now2 : Z)
    (featureMatrixCache : gmap string MatrixEntry) (v v2 : View)
    (studyNumber : Z) (availableColumns : list string)
    (subjectIds subjectIds2 : list Z) (key : string) (b0 b : Batch) :
  fetchFeatureMatrix_begin now0 featureMatrixCache v studyNumber
    availableColumns subjectIds = Dispatched key b0 →
  subjectIds2 ≡ₚ subjectIds →
  fetchFeatureMatrix_begin now2
    (fst (fetchFeatureMatrix_end now1 key b featureMatrixCache)) v2
    studyNumber availableColumns subjectIds2
  = if bool_decide (now2 - now1 < CACHE_DURATION_MS) then
      ServedFromCache
        {| data := allRows b; loading := false;
           loadingPCA := loadingPCA v2; error := error v2;
           featureColumns := featureCols b;
           progressCurrent := progressCurrent v2;
           progressTotal := progressTotal v2 |}
    else Dispatched key (dispatch v2 (sort_with ascending subjectIds2)).
Proof.
  intros Hbegin Hperm.
  apply fetchFeatureMatrix_begin_dispatched in Hbegin
    as (Hids & Hfft & Hkey & _).
  unfold fetchFeatureMatrix_begin.
  rewrite (Permutation_length Hperm).
  rewrite (bool_decide_eq_false_2 _ Hids), (bool_decide_eq_false_2 _ Hfft).
  cbn [orb].
  assert (Hkey2 : cacheKey (getCacheKey studyNumber
                              (fftFeatures availableColumns) subjectIds2)
                  = key).
  { by rewrite (getCacheKey_perm studyNumber _ _ _ _ (reflexivity _)
                  (symmetry Hperm)). }
  rewrite Hkey2. unfold lookupFresh. cbn [fst fetchFeatureMatrix_end].
  rewrite lookup_insert_eq. cbn [entryTimestamp entryData entryColumns].
  by destruct (bool_decide (now2 - now1 < CACHE_DURATION_MS)).
Qed.

(** The batch of subject 2 failing, cached at time 2000, is asked for
    again at time 302000. *)
Lemma rows_cache_expires_witness :
  fetchFeatureMatrix_begin 1000 ∅ emptyView 3 ["ECG"; "EDA"] [1; 2; 3]
  = Dispatched "3:ECG,EDA:1,2,3" (dispatch emptyView [1; 2; 3])
  ∧ [3; 1; 2] ≡ₚ [1; 2; 3]
  ∧ fetchFeatureMatrix_begin 302000
      (fst (fetchFeatureMatrix_end 2000 "3:ECG,EDA:1,2,3" flakyRunOfThree ∅))
      emptyView 3 ["ECG"; "EDA"] [3; 1; 2]
    = Dispatched "3:ECG,EDA:1,2,3"
        (dispatch emptyView (sort_with ascending [3; 1; 2])).
Proof.
  assert (Hbegin : fetchFeatureMatrix_begin 1000 ∅ emptyView 3
                     ["ECG"; "EDA"] [1; 2; 3]
                   = Dispatched "3:ECG,EDA:1,2,3"
                       (dispatch emptyView [1; 2; 3]))
    by (vm_compute; reflexivity).
  assert (Hperm : [3; 1; 2] ≡ₚ [1; 2; 3]).
  { apply (Permutation_cons_append [1; 2] 3). }
  split; [exact Hbegin |]. split; [exact Hperm |].
  exact (rows_cache_expires 1000 2000 302000 ∅ emptyView emptyView 3
           ["ECG"; "EDA"] [1; 2; 3] [3; 1; 2] "3:ECG,EDA:1,2,3"
           (dispatch emptyView [1; 2; 3]) flakyRunOfThree Hbegin Hperm).
Defined.

(** ** The order in which subjects are fetched *)

Lemma sort_with_ascending_sorted (l : list Z) :
  StronglySorted Z.le (sort_with ascending l).
Proof.
  assert (H : StronglySorted (precedes ascending) (sort_with ascending l)).
  { apply Sorted_StronglySorted; [apply _ |].
    apply Sorted_merge_sort; apply _. }
  induction H as [| a k Hk IH Hall]; constructor; [done |].
  eapply Forall_impl; [exact Hall |].
  intros b. unfold precedes, ascending. lia.
Qed.

(** X3.  A batch starts with the fetches for the five smallest subject
    ids (all of them when there are fewer) and queues the others in
    ascending order, however the caller ordered the list.  In every later
    state of the run the queue is still ascending, and every subject
    whose fetch is pending or has been logged as failed is at most as
    large as every queued one: no subject is started before a smaller
    one. *)
Theorem subjects_start_in_ascending_order
    (fetch : Z → Fetched FeatureMatrixResponse) (now : Z)
    (featureMatrixCache : gmap string MatrixEntry) (v : View)
    (studyNumber : Z) (availableColumns : list string) (subjectIds : list Z)
    (key : string) (b0 : Batch) (sched : list nat) (b : Batch) :
  fetchFeatureMatrix_begin now featureMatrixCache v studyNumber
    availableColumns subjectIds = Dispatched key b0 →
  run fetch sched b0 = Some b →
  inFlight b0
  = Awaiting <$> take CONCURRENCY_LIMIT (sort_with ascending subjectIds)
  ∧ queue b0 = drop CONCURRENCY_LIMIT (sort_with ascending subjectIds)
  ∧ sort_with ascending subjectIds ≡ₚ subjectIds
  ∧ StronglySorted Z.le (queue b)
  ∧ Forall (λ a, Forall (λ q, a ≤ q) (queue b)) (awaited b)
  ∧ Forall (λ e, Forall (λ q, e.1 ≤ q) (queue b)) (consoleErrors b).
Proof.
  intros Hbegin Hrun.
  apply fetchFeatureMatrix_begin_dispatched in Hbegin as (_ & _ & _ & ->).
  split; [by rewrite dispatch_spec |]. split; [by rewrite dispatch_spec |].
  split; [apply merge_sort_Permutation |].
  destruct (scheduled_reachable _ _ _ _ _ Hrun) as (settled & _ & Hb).
  destruct (scheduled_accumulators _ _ _ _ _ Hb) as (_ & _ & Herrs & _).
  destruct Hb as (_ & _ & _ & taken & Htaken & Hperm).
  pose proof (sort_with_ascending_sorted subjectIds) as Hsorted.
  rewrite Htaken in Hsorted.
  apply StronglySorted_app in Hsorted as (Hle & _ & Hqueue).
  split; [done |]. split.
  - apply Forall_forall. intros a Ha. apply Forall_forall. intros q Hq.
    apply Hle; [| done]. rewrite Hperm. apply elem_of_app. by right.
  - apply Forall_forall. intros e He. apply Forall_forall. intros q Hq.
    apply Hle; [| done]. rewrite Hperm. apply elem_of_app. left.
    assert (Hin : e.1 ∈ (consoleErrors b).*1).
    { apply list_elem_of_fmap. by exists e. }
    rewrite Herrs in Hin. apply list_elem_of_In in Hin.
    apply List.filter_In in Hin as [Hin _]. by apply list_elem_of_In.
Qed.

(** Subjects listed as 7, 3, 6, 1, 5, 2, 4: the fetches for 1 to 5 are
    started and 6 and 7 are queued. *)
Lemma subjects_start_in_ascending_order_witness :
  fetchFeatureMatrix_begin 1000 ∅ emptyView 3 ["ECG"; "EDA"]
    [7; 3; 6; 1; 5; 2; 4]
  = Dispatched "3:ECG,EDA:1,2,3,4,5,6,7"
      (dispatch emptyView [1; 2; 3; 4; 5; 6; 7])
  ∧ run flakyService [0; 0; 4]%nat (dispatch emptyView [1; 2; 3; 4; 5; 6; 7])
    = Some afterThreeOfSeven
  ∧ inFlight (dispatch emptyView [1; 2; 3; 4; 5; 6; 7])
    = Awaiting <$> take CONCURRENCY_LIMIT
                     (sort_with ascending [7; 3; 6; 1; 5; 2; 4])
  ∧ queue (dispatch emptyView [1; 2; 3; 4; 5; 6; 7]) = [6; 7].
Proof.
  assert (Hbegin : fetchFeatureMatrix_begin 1000 ∅ emptyView 3
                     ["ECG"; "EDA"] [7; 3; 6; 1; 5; 2; 4]
                   = Dispatched "3:ECG,EDA:1,2,3,4,5,6,7"
                       (dispatch emptyView [1; 2; 3; 4; 5; 6; 7]))
    by (vm_compute; reflexivity).
  assert (Hrun : run flakyService [0; 0; 4]%nat
                   (dispatch emptyView [1; 2; 3; 4; 5; 6; 7])
                 = Some afterThreeOfSeven) by (vm_compute; reflexivity).
  pose proof (subjects_start_in_ascending_order flakyService 1000 ∅
                emptyView 3 ["ECG"; "EDA"] [7; 3; 6; 1; 5; 2; 4] _ _
                [0; 0; 4]%nat _ Hbegin Hrun) as H.
  split; [exact Hbegin |]. split; [exact Hrun |].
  split; [exact (proj1 H) | reflexivity].
Defined.

(** ** Progress and termination *)

(** X4.  A run of a batch over [n] subjects never has more than [n]
    transitions, and all workers are resolved exactly when it has [n].
    In every state of the run the batch's count is the number of
    subjects, among those whose fetch has settled, whose fetch was
    fulfilled; it is at most the number of fetches settled; it is the
    value that the batch passed to [setLoadingProgress] last; and no
    value that the batch passed exceeds the total [n]. *)
Theorem progress_bounded_until_all_settled
    (fetch : Z → Fetched FeatureMatrixResponse) (v : View)
    (subjectIds : list Z) (sched : list nat) (b : Batch) :
  run fetch sched (dispatch v subjectIds) = Some b →
  (length sched ≤ length subjectIds)%nat
  ∧ (allResolved b = true ↔ length sched = length subjectIds)
  ∧ (∃ arrived,
       length arrived = length sched
       ∧ arrived ⊆+ subjectIds
       ∧ completedCount b = length (List.filter (fulfilled fetch) arrived))
  ∧ (completedCount b ≤ length sched)%nat
  ∧ last (published b) = Some (completedCount b)
  ∧ Forall (λ n, (n ≤ length subjectIds)%nat) (published b).
Proof.
  intros Hrun.
  destruct (scheduled_reachable _ _ _ _ _ Hrun) as (arrived & Hlen & Hb).
  pose proof (scheduled_lengths _ _ _ _ _ Hb) as Hsum.
  destruct (scheduled_accumulators _ _ _ _ _ Hb) as (Hcount & Hpub & _).
  pose proof (filter_length_le (fulfilled fetch) arrived) as Hle.
  split; [lia |]. split.
  { split.
    - intros Hdone.
      destruct (scheduled_done _ _ _ _ _ Hb Hdone) as [Hq _].
      apply allResolved_awaited in Hdone. rewrite Hdone, Hq in Hsum.
      simpl in Hsum. lia.
    - intros Hall. apply allResolved_awaited. apply nil_length_inv. lia. }
  split.
  { exists arrived. split; [done |]. split; [| done].
    destruct Hb as (_ & _ & _ & taken & -> & Hperm).
    etrans; [| apply submseteq_inserts_r; reflexivity].
    rewrite Hperm. apply submseteq_inserts_r. reflexivity. }
  split; [lia |]. rewrite Hpub. split.
  - rewrite seq_S. apply last_snoc.
  - apply Forall_forall. intros n Hn. apply elem_of_seq in Hn. lia.
Qed.

Lemma progress_bounded_until_all_settled_witness :
  run flakyService [0; 0; 4]%nat (dispatch emptyView [1; 2; 3; 4; 5; 6; 7])
  = Some afterThreeOfSeven
  ∧ completedCount afterThreeOfSeven = 3%nat
  ∧ last (published afterThreeOfSeven) = Some 3%nat.
Proof.
  assert (Hrun : run flakyService [0; 0; 4]%nat
                   (dispatch emptyView [1; 2; 3; 4; 5; 6; 7])
                 = Some afterThreeOfSeven) by (vm_compute; reflexivity).
  destruct (progress_bounded_until_all_settled flakyService emptyView
              [1; 2; 3; 4; 5; 6; 7] [0; 0; 4]%nat _ Hrun)
    as (_ & _ & _ & _ & Hlast & _).
  split; [exact Hrun |]. split; [reflexivity | exact Hlast].
Defined.

(** ** Rows only accumulate *)

Lemma afterFetch_grows (subjectId : Z)
    (response : Fetched FeatureMatrixResponse) (b : Batch) :
  allRows b `prefix_of` allRows (afterFetch subjectId response b)
  ∧ published b `prefix_of` published (afterFetch subjectId response b)
  ∧ consoleErrors b
    `prefix_of` consoleErrors (afterFetch subjectId response b)
  ∧ (completedCount b ≤ completedCount (afterFetch subjectId response b))%nat.
Proof.
  unfold afterFetch.
  destruct (fetchSubject (featureCols b) response) as [? [rows | e]]; simpl;
    repeat split; try done; try (by apply prefix_app_r); lia.
Qed.

Lemma settle_grows fetch (i : nat) (b b' : Batch) :
  settle fetch i b = Some b' →
  allRows b `prefix_of` allRows b'
  ∧ published b `prefix_of` published b'
  ∧ consoleErrors b `prefix_of` consoleErrors b'
  ∧ (completedCount b ≤ completedCount b')%nat
  ∧ queue b' `suffix_of` queue b.
Proof.
  intros (subjectId & _ & ->)%settle_spec.
  destruct (afterFetch_grows subjectId (fetch subjectId) b)
    as (H1 & H2 & H3 & H4).
  destruct (queue b) as [| next rest]; cbn [allRows published consoleErrors
    completedCount queue setQueueAndSlots]; repeat split; try done.
  by apply suffix_cons_r.
Qed.

(** X5.  From any state of a batch to any later state of its run, rows
    are only appended at the end of the accumulator, and the same holds
    for the values passed to [setLoadingProgress] and for the log of
    failures; the count does not decrease and the queue only loses
    subjects at its head. *)
Theorem rows_only_accumulate
    (fetch : Z → Fetched FeatureMatrixResponse) (sched : list nat)
    (b b' : Batch) :
  run fetch sched b = Some b' →
  allRows b `prefix_of` allRows b'
  ∧ published b `prefix_of` published b'
  ∧ consoleErrors b `prefix_of` consoleErrors b'
  ∧ (completedCount b ≤ completedCount b')%nat
  ∧ queue b' `suffix_of` queue b.
Proof.
  revert b. induction sched as [| i sched IH]; intros b; simpl.
  - intros [= <-]. repeat split; done.
  - destruct (settle fetch i b) as [b1 |] eqn:Hsettle; [| done].
    intros Hrun.
    destruct (settle_grows _ _ _ _ Hsettle) as (H1 & H2 & H3 & H4 & H5).
    destruct (IH _ Hrun) as (G1 & G2 & G3 & G4 & G5).
    repeat split; try (by etrans); lia.
Qed.

Lemma rows_only_accumulate_witness :
  run flakyService [1; 2]%nat flakyAfterFirst = Some flakyRunOfThree
  ∧ subjectId <$> allRows flakyAfterFirst = [1]
  ∧ subjectId <$> allRows flakyRunOfThree = [1; 3]
  ∧ allRows flakyAfterFirst `prefix_of` allRows flakyRunOfThree.
Proof.
  assert (Hrun : run flakyService [1; 2]%nat flakyAfterFirst
                 = Some flakyRunOfThree) by (vm_compute; reflexivity).
  destruct (rows_only_accumulate flakyService [1; 2]%nat _ _ Hrun)
    as (Hrows & _).
  split; [exact Hrun |]. do 2 (split; [reflexivity |]). exact Hrows.
Defined.

(** ** The table does not depend on the order of arrival *)

Lemma bind_single {A B} (f : A → list B) (x : A) : [x] ≫= f = f x.
Proof. rewrite bind_cons. apply app_nil_r. Qed.

Lemma sequential_uniform fetch (cols : list string) (v : View)
    (subjectIds settled : list Z) :
  uniformColumns fetch cols →
  let b := sequential fetch settled (initialBatch v subjectIds) in
  (featureCols b = [] ∨ featureCols b = cols)
  ∧ allRows b
    = settled ≫= (λ subjectId, toFeatureRow cols <$> rawRows (fetch subjectId)).
Proof.
  intros Huniform.
  induction settled as [| subjectId settled IH] using rev_ind.
  - simpl. by split; [left |].
  - rewrite sequential_snoc.
    set (b := sequential fetch settled (initialBatch v subjectIds)) in *.
    simpl in IH. destruct IH as [Hcols Hrows].
    rewrite bind_app, bind_single. simpl.
    unfold afterFetch.
    destruct (fetch subjectId) as [| [|] status [result |]] eqn:Hresp;
      simpl; rewrite ?app_nil_r; try done.
    destruct (rows result) as [| | flag | z | s | | items] eqn:Hitems;
      simpl; rewrite ?orb_true_r; simpl;
      try (split; [done | by rewrite Hrows]).
    pose proof (Huniform _ _ _ Hresp) as Hlisted.
    rewrite Hitems in Hlisted. specialize (Hlisted eq_refl).
    destruct (columns result) as [cs |]; [| done].
    injection Hlisted as Hcs.
    destruct (featureCols b) as [| c rest] eqn:Hcur; simpl.
    + rewrite Hcs. split; [by right | by rewrite Hrows].
    + destruct Hcols as [? | Hcols]; [done |].
      split; [by right |]. by rewrite Hrows, Hcols.
Qed.

(** X6.  When every successful response that has a row array lists the
    same feature columns, the rows of a finished batch are the rows of
    the responses, each with the numeric fields of these columns, in
    some order; two runs of the batch that differ in the order in which
    the fetches settle therefore end with the same rows up to their
    order. *)
Theorem table_independent_of_arrival_order
    (fetch : Z → Fetched FeatureMatrixResponse) (cols : list string)
    (v : View) (subjectIds : list Z) (sched sched' : list nat)
    (b b' : Batch) :
  uniformColumns fetch cols →
  run fetch sched (dispatch v subjectIds) = Some b →
  allResolved b = true →
  run fetch sched' (dispatch v subjectIds) = Some b' →
  allResolved b' = true →
  allRows b
  ≡ₚ subjectIds
     ≫= (λ subjectId, toFeatureRow cols <$> rawRows (fetch subjectId))
  ∧ allRows b ≡ₚ allRows b'.
Proof.
  intros Huniform Hrun Hdone Hrun' Hdone'.
  assert (Hcanon : ∀ sch x,
    run fetch sch (dispatch v subjectIds) = Some x →
    allResolved x = true →
    allRows x
    ≡ₚ subjectIds
       ≫= (λ subjectId, toFeatureRow cols <$> rawRows (fetch subjectId))).
  { intros sch x Hx Hres.
    destruct (scheduled_reachable _ _ _ _ _ Hx) as (settled & _ & Hsch).
    destruct (scheduled_done _ _ _ _ _ Hsch Hres) as [_ Hperm].
    destruct Hsch as [Hacc _].
    destruct (sequential_uniform fetch cols v subjectIds settled Huniform)
      as [_ Hrows].
    rewrite Hacc. cbn [allRows setQueueAndSlots]. rewrite Hrows.
    by apply bind_Permutation. }
  split; [by eapply Hcanon |].
  by rewrite (Hcanon _ _ Hrun Hdone), (Hcanon _ _ Hrun' Hdone').
Qed.

Lemma flakyService_uniform :
  uniformColumns flakyService ["ECG_mean"; "ECG_quality"].
Proof.
  intros subjectId status result Hresp _. unfold flakyService in Hresp.
  destruct (subjectId =? 2); [discriminate Hresp |].
  by injection Hresp as _ <-.
Qed.

(** The batch for subjects 1, 2 and 3 under two orders of arrival. *)
Lemma table_independent_of_arrival_order_witness :
  uniformColumns flakyService ["ECG_mean"; "ECG_quality"]
  ∧ run flakyService [0; 1; 2]%nat (dispatch emptyView [1; 2; 3])
    = Some flakyRunOfThree
  ∧ run flakyService [2; 0; 1]%nat (dispatch emptyView [1; 2; 3])
    = Some flakyRunOfThreeLastFirst
  ∧ subjectId <$> allRows flakyRunOfThree = [1; 3]
  ∧ subjectId <$> allRows flakyRunOfThreeLastFirst = [3; 1]
  ∧ allRows flakyRunOfThree ≡ₚ allRows flakyRunOfThreeLastFirst.
Proof.
  assert (Hrun : run flakyService [0; 1; 2]%nat (dispatch emptyView [1; 2; 3])
                 = Some flakyRunOfThree) by (vm_compute; reflexivity).
  assert (Hrun' : run flakyService [2; 0; 1]%nat
                    (dispatch emptyView [1; 2; 3])
                  = Some flakyRunOfThreeLastFirst)
    by (vm_compute; reflexivity).
  pose proof (table_independent_of_arrival_order flakyService _ emptyView
                [1; 2; 3] _ _ _ _ flakyService_uniform Hrun eq_refl Hrun'
                eq_refl) as H.
  split; [exact flakyService_uniform |].
  split; [exact Hrun |]. split; [exact Hrun' |].
  do 2 (split; [reflexivity |]).
  exact (proj2 H).
Defined.

(** ** What the component shows while calls overlap *)

Section Sessions.

Import ComprehensiveFeatureTable.

Lemma session_snoc (cache0 : gmap string MatrixEntry) (events : list Event)
    (e : Event) :
  session cache0 (events ++ [e]) = session cache0 events ≫= λ s, step s e.
Proof. unfold session. by rewrite foldl_app. Qed.

Lemma external_snoc (cache0 : gmap string MatrixEntry) (events : list Event)
    (e : Event) (entry : MatrixEntry) :
  external cache0 events entry → external cache0 (events ++ [e]) entry.
Proof.
  intros [? | [key Hin]]; [by left |]. right. exists key.
  apply elem_of_app. by left.
Qed.

(** What the continuation of a fetch writes to the state of the
    component: after a fulfilled fetch the rows accumulated by the call,
    after a rejected one nothing. *)
Lemma settle_withView fetch (i : nat) (v : View) (b b' : Batch) :
  settle fetch i (withView v b) = Some b' →
  allResolved b = false
  ∧ loading (view b') = loading v
  ∧ error (view b') = error v
  ∧ (data (view b') = allRows b'
     ∨ data (view b') = data v ∧ allRows b' = allRows b).
Proof.
  intros (subjectId & Hi & ->)%settle_spec. cbn [inFlight withView] in Hi.
  split.
  { unfold allResolved. apply not_true_is_false. intros Hall.
    rewrite forallb_forall in Hall.
    specialize (Hall (Awaiting subjectId)). cbn in Hall.
    assert (Hin : In (Awaiting subjectId) (inFlight b)).
    { apply list_elem_of_In. by eapply list_elem_of_lookup_2. }
    specialize (Hall Hin). discriminate Hall. }
  assert (Hafter : ∀ q ws,
    let b1 := setQueueAndSlots
                (afterFetch subjectId (fetch subjectId) (withView v b)) q ws in
    loading (view b1) = loading v
    ∧ error (view b1) = error v
    ∧ (data (view b1) = allRows b1
       ∨ data (view b1) = data v ∧ allRows b1 = allRows b)).
  { intros q ws. unfold afterFetch. cbn [featureCols withView view allRows].
    destruct (fetchSubject (featureCols b) (fetch subjectId))
      as [captured [rows | e]] eqn:Hfetch;
      cbn [setQueueAndSlots view allRows publish loading error data].
    - destruct captured; repeat split; try done; by left.
    - assert (captured = None) as ->.
      { destruct (fetchSubject_outcome (featureCols b) (fetch subjectId))
          as [(_ & ? & ? & Heq & _) | (_ & _ & ? & Heq)];
          rewrite Hfetch in Heq; by injection Heq. }
      repeat split; try done. by right. }
  cbn [queue withView]. destruct (queue b); apply Hafter.
Qed.

(** How a call of [fetchFeatureMatrix] leaves its synchronous prefix. *)
Lemma fetchFeatureMatrix_begin_view (now : Z)
    (cache : gmap string MatrixEntry) (v : View) (studyNumber : Z)
    (availableColumns : list string) (subjectIds : list Z) :
  match fetchFeatureMatrix_begin now cache v studyNumber availableColumns
          subjectIds with
  | NothingToFetch v' =>
      data v' = [] ∧ loading v' = false ∧ error v' = error v
  | ServedFromCache v' =>
      (∃ key cached, cache !! key = Some cached ∧ data v' = entryData cached)
      ∧ loading v' = false ∧ error v' = error v
  | Dispatched key b =>
      data (view b) = [] ∧ allRows b = [] ∧ error (view b) = None
  end.
Proof.
  unfold fetchFeatureMatrix_begin.
  destruct (bool_decide (length subjectIds = 0%nat)
            || bool_decide (length (fftFeatures availableColumns) = 0%nat));
    [done |].
  unfold lookupFresh.
  destruct (cache !! cacheKey _) as [cached |] eqn:Hcached.
  - case_bool_decide.
    + split; [| done]. by eexists _, cached.
    + by rewrite dispatch_spec.
  - by rewrite dispatch_spec.
Qed.

(** The invariant of a session. *)
Lemma session_invariant (cache0 : gmap string MatrixEntry)
    (events : list Event) (s : State) :
  session cache0 events = Some s →
  rowsOfOneCall cache0 events s
  ∧ cacheOfEndedCalls cache0 events s
  ∧ (error (shown s) = None
     ∨ ∃ e, ClickEnds (Some e) ∈ events
            ∧ error (shown s) = Some (messageOf e))
  ∧ (loading (shown s) = true →
     Forall (λ e, isEffectRun e = false) events ∨ busy s)
  ∧ (∀ j c, calls s !! j = Some c → callFinished c = true →
            allResolved (callBatch c) = true).
Proof.
  revert s. induction events as [| e events IH] using rev_ind; intros s.
  { intros [= <-]. split; [by left |].
    split; [intros key entry Hkey; left; left; by exists key |].
    split; [by left |].
    split; [intros _; left; apply Forall_nil_2 |].
    intros j c Hj. cbn [calls mounted] in Hj. by rewrite lookup_nil in Hj. }
  rewrite session_snoc.
  destruct (session cache0 events) as [s0 |] eqn:Hs0; [| done].
  cbn [mbind option_bind]. intros Hstep.
  destruct (IH s0 eq_refl) as (Hrows & Hcache & Herror & Hloading & Hended).
  clear IH.
  assert (Hext : ∀ entry, external cache0 events entry →
                          external cache0 (events ++ [e]) entry)
    by (intros entry; apply external_snoc).
  assert (Hrows' : ∀ s' : State,
    data (shown s') = data (shown s0) →
    (∀ j c, calls s0 !! j = Some c →
            ∃ c', calls s' !! j = Some c'
                  ∧ allRows (callBatch c') = allRows (callBatch c)) →
    rowsOfOneCall cache0 (events ++ [e]) s').
  { intros s' Hdata Hcalls. unfold rowsOfOneCall. rewrite Hdata.
    destruct Hrows as [Hnone | [(j & c & Hj & Hc) | (entry & Hentry & Hc)]].
    - by left.
    - right. left. destruct (Hcalls _ _ Hj) as (c' & Hj' & Hsame).
      exists j, c'. by rewrite Hsame.
    - right. right. exists entry. auto. }
  assert (Hcache' : ∀ s' : State,
    featureMatrixCache s' = featureMatrixCache s0 →
    (∀ j c, calls s0 !! j = Some c → callFinished c = true →
            calls s' !! j = Some c) →
    cacheOfEndedCalls cache0 (events ++ [e]) s').
  { intros s' Hsame Hcalls key entry. rewrite Hsame. intros Hkey.
    destruct (Hcache _ _ Hkey) as [? | (j & c & Hj & Hfin & Hrest)];
      [left; auto |].
    right. exists j, c. split; [by apply Hcalls | done]. }
  assert (Herror' : ∀ s' : State,
    error (shown s') = error (shown s0) →
    error (shown s') = None
    ∨ ∃ e', ClickEnds (Some e') ∈ events ++ [e]
            ∧ error (shown s') = Some (messageOf e')).
  { intros s' ->. destruct Herror as [? | (e' & Hin & ?)]; [by left |].
    right. exists e'. split; [| done]. apply elem_of_app. by left. }
  assert (Hbusy' : ∀ s' : State,
    (∀ j c, calls s0 !! j = Some c → callFinished c = false →
            ∃ c', calls s' !! j = Some c' ∧ callFinished c' = false) →
    busy s0 → busy s').
  { intros s' Hcalls (j & c & Hj & Hc).
    destruct (Hcalls _ _ Hj Hc) as (c' & ? & ?). by exists j, c'. }
  destruct e as [now studyNumber availableColumns subjectIds
                | j i response | j now | | failure | key entry];
    cbn [step] in Hstep.
  - (* the effect runs *)
    pose proof (fetchFeatureMatrix_begin_view now (featureMatrixCache s0)
                  (shown s0) studyNumber availableColumns subjectIds) as Hview.
    destruct (fetchFeatureMatrix_begin now (featureMatrixCache s0) (shown s0)
                studyNumber availableColumns subjectIds)
      as [v' | v' | key b]; injection Hstep as <-.
    + destruct Hview as (Hdata & Hload & Herr).
      split; [by left |].
      split; [by apply Hcache' |].
      split; [apply Herror'; cbn; congruence |].
      split; [cbn; congruence | done].
    + destruct Hview as ((key & cached & Hkey & Hdata) & Hload & Herr).
      split.
      { unfold rowsOfOneCall. cbn [shown calls]. rewrite Hdata.
        destruct (Hcache _ _ Hkey) as [? | (j & c & Hj & _ & _ & Hsame & _)].
        - right. right. exists cached. auto.
        - right. left. by exists j, c. }
      split; [by apply Hcache' |].
      split; [apply Herror'; cbn; congruence |].
      split; [cbn; congruence | done].
    + destruct Hview as (Hdata & Hnone & Herr).
      split; [by left |].
      split.
      { apply Hcache'; [done |]. intros j c Hj _. cbn [calls].
        by apply lookup_app_l_Some. }
      split; [by left |].
      split.
      { intros _. right. eexists (length (calls s0)), _.
        split; [apply list_lookup_middle; reflexivity | done]. }
      cbn [calls]. intros j c Hj Hfin.
      apply lookup_app_Some in Hj as [Hj | [_ Hj]]; [by eapply Hended |].
      apply list_lookup_singleton_Some in Hj as [_ <-]. done.
  - (* a fetch settles *)
    destruct (calls s0 !! j) as [c |] eqn:Hj; [| done].
    cbn [mbind option_bind] in Hstep.
    destruct (settle (λ _, response) i (withView (shown s0) (callBatch c)))
      as [b' |] eqn:Hsettle; [| done].
    cbn [mbind option_bind] in Hstep. injection Hstep as <-.
    destruct (settle_withView _ _ _ _ _ Hsettle)
      as (Hopen & Hload & Herr & Hdata).
    assert (Hunfinished : callFinished c = false).
    { destruct (callFinished c) eqn:Hfin; [| done].
      rewrite (Hended _ _ Hj Hfin) in Hopen. done. }
    assert (Hlt : (j < length (calls s0))%nat) by (by eapply lookup_lt_Some).
    split.
    { destruct Hdata as [Hdata | [Hdata Hsame]].
      - right. left. eexists j, _. cbn [shown calls].
        split; [by apply list_lookup_insert_eq |]. done.
      - apply Hrows'; [done |]. intros j' c' Hj'. cbn [calls].
        destruct (decide (j' = j)) as [-> | Hne].
        + eexists. split; [by apply list_lookup_insert_eq |].
          cbn [callBatch]. congruence.
        + exists c'. by rewrite list_lookup_insert_ne. }
    split.
    { apply Hcache'; [done |]. intros j' c' Hj' Hfin. cbn [calls].
      rewrite list_lookup_insert_ne; [done |]. intros ->. congruence. }
    split; [by apply Herror' |].
    split.
    { intros _. right. eexists j, _. cbn [calls].
      split; [by apply list_lookup_insert_eq | done]. }
    cbn [calls]. intros j' c' Hj' Hfin.
    destruct (decide (j' = j)) as [-> | Hne].
    + rewrite list_lookup_insert_eq in Hj' by done. injection Hj' as <-.
      cbn in Hfin. congruence.
    + rewrite list_lookup_insert_ne in Hj' by done. by eapply Hended.
  - (* a call ends *)
    destruct (calls s0 !! j) as [c |] eqn:Hj; [| done].
    cbn [mbind option_bind] in Hstep.
    destruct (allResolved (callBatch c)) eqn:Hdone; [| done].
    destruct (callFinished c) eqn:Hfin; [done |].
    cbn [andb negb fetchFeatureMatrix_end] in Hstep. injection Hstep as <-.
    assert (Hlt : (j < length (calls s0))%nat) by (by eapply lookup_lt_Some).
    split.
    { apply Hrows'; [done |]. intros j' c' Hj'. cbn [calls].
      destruct (decide (j' = j)) as [-> | Hne].
      - eexists. split; [by apply list_lookup_insert_eq |].
        cbn [callBatch withView allRows]. congruence.
      - exists c'. by rewrite list_lookup_insert_ne. }
    split.
    { intros key entry. cbn [featureMatrixCache calls].
      destruct (decide (key = callKey c)) as [-> | Hne].
      - rewrite lookup_insert_eq. intros [= <-]. right. eexists j, _.
        split; [by apply list_lookup_insert_eq |]. done.
      - rewrite lookup_insert_ne by done. intros Hkey.
        destruct (Hcache _ _ Hkey) as [? | (j' & c' & Hj' & Hfin' & Hrest)];
          [left; auto |].
        right. exists j', c'. split; [| done].
        rewrite list_lookup_insert_ne; [done |]. intros ->. congruence. }
    split; [by apply Herror' |].
    split; [done |].
    cbn [calls]. intros j' c' Hj' Hfin'.
    destruct (decide (j' = j)) as [-> | Hne].
    + rewrite list_lookup_insert_eq in Hj' by done. by injection Hj' as <-.
    + rewrite list_lookup_insert_ne in Hj' by done. by eapply Hended.
  - (* a click on the PCA button *)
    injection Hstep as <-.
    split; [apply Hrows'; [done | by eauto] |].
    split; [by apply Hcache' |].
    split; [by left |].
    split; [| done].
    intros Hload. destruct (Hloading Hload) as [Hnone | ?]; [| by right].
    left. apply Forall_app. split; [done | by repeat constructor].
  - (* the click ends *)
    injection Hstep as <-.
    split; [apply Hrows'; [done | by eauto] |].
    split; [by apply Hcache' |].
    split.
    { destruct failure as [e' |]; [| by apply Herror'].
      right. exists e'. split; [| done]. apply elem_of_app. right.
      by apply list_elem_of_singleton. }
    split; [| done].
    intros Hload. destruct (Hloading Hload) as [Hnone | ?]; [| by right].
    left. apply Forall_app. split; [done | by repeat constructor].
  - (* the cache is written elsewhere *)
    injection Hstep as <-.
    split; [apply Hrows'; [done | by eauto] |].
    split.
    { intros key' entry'. cbn [featureMatrixCache calls].
      destruct (decide (key' = key)) as [-> | Hne].
      - rewrite lookup_insert_eq. intros [= <-]. left. right. exists key.
        apply elem_of_app. right. by apply list_elem_of_singleton.
      - rewrite lookup_insert_ne by done. intros Hkey.
        destruct (Hcache _ _ Hkey) as [? | ?]; [left; auto | by right]. }
    split; [by apply Herror' |].
    split; [| done].
    intros Hload. destruct (Hloading Hload) as [Hnone | ?]; [| by right].
    left. apply Forall_app. split; [done | by repeat constructor].
Qed.

(** X7.  Take any session of the component: calls of
    [fetchFeatureMatrix] that overlap in any way, clicks on the PCA
    button, writes to the shared cache from elsewhere.  At every moment
    the rows on display are no rows, or the rows accumulated so far by
    one single call, or the rows of one cache entry written outside the
    session: rows of two calls are never mixed.  Every cache entry that
    the session wrote holds the rows and the column set of a call that
    has run to its end.  An error on display is the message of a click
    that failed; a call sets none, whatever fetches fail.  The progress
    placeholder is on display only before the first call or while a
    call has not run to its end; so once every call has run to its end,
    and no click has left an error, the component shows the table with
    the rows on display, or the empty placeholder when there are
    none. *)
Theorem table_shows_rows_of_one_call (cache0 : gmap string MatrixEntry)
    (events : list Event) (s : State) (onGeneratePCA : bool) :
  session cache0 events = Some s →
  rowsOfOneCall cache0 events s
  ∧ cacheOfEndedCalls cache0 events s
  ∧ (error (shown s) = None
     ∨ ∃ e, ClickEnds (Some e) ∈ events
            ∧ error (shown s) = Some (messageOf e))
  ∧ (loading (shown s) = true →
     Forall (λ e, isEffectRun e = false) events ∨ busy s)
  ∧ (Exists (λ e, isEffectRun e = true) events →
     Forall (λ c, callFinished c = true) (calls s) →
     loading (shown s) = false
     ∧ (error (shown s) = None →
        renderTable onGeneratePCA (shown s)
        = tableOrPlaceholder onGeneratePCA (shown s))).
Proof.
  intros Hs.
  destruct (session_invariant _ _ _ Hs)
    as (Hrows & Hcache & Herror & Hloading & _).
  do 4 (split; [done |]).
  intros Hran Hended.
  assert (Hoff : loading (shown s) = false).
  { destruct (loading (shown s)) eqn:Hload; [| done].
    destruct (Hloading eq_refl) as [Hnone | (j & c & Hj & Hc)].
    - apply Exists_exists in Hran as (e & He & Hrun).
      rewrite Forall_forall in Hnone. specialize (Hnone _ He). congruence.
    - rewrite Forall_forall in Hended.
      apply list_elem_of_lookup_2 in Hj. specialize (Hended _ Hj).
      congruence. }
  split; [done |]. intros Hnone.
  unfold renderTable, tableOrPlaceholder. by rewrite Hoff, Hnone.
Qed.

(** The session of two overlapping calls for subjects 2 and 1: the rows
    on display go from two back to one in its course; at its end the
    component shows the two rows of the second call, which are also
    what the cache holds. *)
Lemma table_shows_rows_of_one_call_witness :
  session ∅ (overlap 8) = Some overlapEnded
  ∧ (length ∘ data ∘ shown <$> session ∅ (overlap 4)) = Some 2%nat
  ∧ (length ∘ data ∘ shown <$> session ∅ (overlap 5)) = Some 1%nat
  ∧ loading (shown overlapEnded) = false
  ∧ renderTable true (shown overlapEnded)
    = tableOrPlaceholder true (shown overlapEnded)
  ∧ subjectId <$> data (shown overlapEnded) = [1; 2].
Proof.
  assert (Hs : session ∅ (overlap 8) = Some overlapEnded)
    by (vm_compute; reflexivity).
  destruct (table_shows_rows_of_one_call ∅ (overlap 8) overlapEnded true Hs)
    as (_ & _ & _ & _ & Hend).
  destruct Hend as [Hoff Hshown].
  { apply Exists_cons_hd. reflexivity. }
  { unfold overlapEnded. cbn [calls]. by repeat constructor. }
  split; [exact Hs |]. do 2 (split; [vm_compute; reflexivity |]).
  split; [exact Hoff |]. split; [exact (Hshown eq_refl) | reflexivity].
Defined.

End Sessions.

(** ** The PCA cache replays a click *)





(** ** What the page plots *)

(** X9.  Handed the join of the rows on display with the returned
    points, the page keeps as its points exactly the returned points, in
    their order, with their coordinates: the rows on display and the
    default coordinate 0 play no part.  When no point was returned the
    page keeps the projection it had. *)
Theorem page_plots_returned_points
    (featurePCAData : option FeaturePCAData.t) (features : list string)
    (data : list SubjectEmotionFeatureRow) (data_points : list Point.t)
    (variance : Z * Z) :
  HomePage.onGeneratePCA featurePCAData features
    (dataWithPCA data data_points) (Some variance)
  = match data_points with
    | [] => featurePCAData
    | _ :: _ =>
        Some {| FeaturePCAData.features := features;
                FeaturePCAData.points := plottedPoint <$> data_points;
                FeaturePCAData.variance := variance |}
    end.
Proof.
  unfold HomePage.onGeneratePCA, dataWithPCA.
  destruct data_points as [| item rest]; [done |].
  rewrite bool_decide_eq_true_2 by (simpl; lia).
  do 2 f_equal. rewrite <- list_fmap_compose. by apply list_fmap_ext.
Qed.

(** ** The signal selected in the FFT chart *)

Lemma fftFeatures_supported (availableColumns : list string) (s : string) :
  s ∈ fftFeatures availableColumns
  ↔ s ∈ availableColumns ∧ s ∈ FFT_SUPPORTED_FEATURES.
Proof.
  unfold fftFeatures. rewrite list_elem_of_In, List.filter_In.
  by rewrite bool_decide_eq_true, <- list_elem_of_In.
Qed.

(** X10.  The signal that the FFT chart starts with is always one of the
    supported signals, and one of those offered when any is offered.
    The effect that resets the selection leaves a selection that is
    offered as it is, replaces any other by the first signal offered,
    changes nothing when it runs a second time, and keeps the selection
    among the supported signals.  The first signal offered is the first
    of the available columns that is a supported signal; it is also what
    the chart starts with when the signal asked for is not offered.
    When no signal is offered the chart starts with ["ECG"] and the
    effect changes nothing. *)
Theorem fft_selection_is_supported (availableColumns : list string)
    (feature selectedFeature : string) :
  FFTChart.defaultFeature availableColumns feature ∈ FFT_SUPPORTED_FEATURES
  ∧ (fftFeatures availableColumns ≠ [] →
     FFTChart.defaultFeature availableColumns feature
     ∈ fftFeatures availableColumns)
  ∧ (fftFeatures availableColumns ≠ [] →
     FFTChart.resetSelection availableColumns selectedFeature
     ∈ fftFeatures availableColumns)
  ∧ (selectedFeature ∈ fftFeatures availableColumns →
     FFTChart.resetSelection availableColumns selectedFeature
     = selectedFeature)
  ∧ FFTChart.resetSelection availableColumns
      (FFTChart.resetSelection availableColumns selectedFeature)
    = FFTChart.resetSelection availableColumns selectedFeature
  ∧ (selectedFeature ∈ FFT_SUPPORTED_FEATURES →
     FFTChart.resetSelection availableColumns selectedFeature
     ∈ FFT_SUPPORTED_FEATURES)
  ∧ (∀ before first after,
       availableColumns = before ++ first :: after →
       first ∈ FFT_SUPPORTED_FEATURES →
       Forall (λ col, col ∉ FFT_SUPPORTED_FEATURES) before →
       (selectedFeature ∉ fftFeatures availableColumns →
        FFTChart.resetSelection availableColumns selectedFeature = first)
       ∧ (feature ∉ fftFeatures availableColumns →
          FFTChart.defaultFeature availableColumns feature = first))
  ∧ (Forall (λ col, col ∉ FFT_SUPPORTED_FEATURES) availableColumns →
     FFTChart.resetSelection availableColumns selectedFeature
     = selectedFeature
     ∧ FFTChart.defaultFeature availableColumns feature = "ECG").
Proof.
  assert (Hbefore : ∀ cols : list string,
            Forall (λ col, col ∉ FFT_SUPPORTED_FEATURES) cols →
            fftFeatures cols = []).
  { intros cols Hcols. unfold fftFeatures.
    induction Hcols as [| col cols Hcol _ IH]; [done |].
    cbn [List.filter]. by rewrite (bool_decide_eq_false_2 _ Hcol). }
  assert (Hold :
    FFTChart.defaultFeature availableColumns feature ∈ FFT_SUPPORTED_FEATURES
    ∧ (fftFeatures availableColumns ≠ [] →
       FFTChart.defaultFeature availableColumns feature
       ∈ fftFeatures availableColumns)
    ∧ (fftFeatures availableColumns ≠ [] →
       FFTChart.resetSelection availableColumns selectedFeature
       ∈ fftFeatures availableColumns)
    ∧ (selectedFeature ∈ fftFeatures availableColumns →
       FFTChart.resetSelection availableColumns selectedFeature
       = selectedFeature)
    ∧ FFTChart.resetSelection availableColumns
        (FFTChart.resetSelection availableColumns selectedFeature)
      = FFTChart.resetSelection availableColumns selectedFeature
    ∧ (selectedFeature ∈ FFT_SUPPORTED_FEATURES →
       FFTChart.resetSelection availableColumns selectedFeature
       ∈ FFT_SUPPORTED_FEATURES)).
  { clear Hbefore.
    unfold FFTChart.defaultFeature, FFTChart.resetSelection.
    assert (Hecg : "ECG" ∈ FFT_SUPPORTED_FEATURES) by (by left).
    destruct (fftFeatures availableColumns) as [| first rest] eqn:Hfft.
    - cbn. repeat split; done.
    - assert (Hfirst : first ∈ fftFeatures availableColumns)
        by (rewrite Hfft; by left).
      pose proof (proj1 (fftFeatures_supported _ _) Hfirst) as [_ Hsup].
      assert (Hne : String.eqb first "" = false).
      { apply String.eqb_neq. intros ->. unfold FFT_SUPPORTED_FEATURES in Hsup.
        repeat (apply elem_of_cons in Hsup as [? | Hsup]; [done |]).
        by apply elem_of_nil in Hsup. }
      rewrite Hfft in Hfirst. cbn [lookup list_lookup default length].
      rewrite (bool_decide_eq_true_2 (0 < S (length rest))%nat) by lia.
      cbn [andb]. rewrite Hne.
      split.
      { case_bool_decide as Hin; [| done].
        rewrite <- Hfft in Hin. by apply fftFeatures_supported in Hin as [_ ?]. }
      split; [intros _; by case_bool_decide |].
      split; [intros _; by case_bool_decide |].
      split; [intros Hin; by rewrite (bool_decide_eq_true_2 _ Hin) |].
      split.
      { destruct (bool_decide (selectedFeature ∈ first :: rest)) eqn:Hin;
          cbn [negb id].
        - by rewrite Hin.
        - by rewrite (bool_decide_eq_true_2 _ Hfirst). }
      intros Hsel. by case_bool_decide. }
  destruct Hold as (H1 & H2 & H3 & H4 & H5 & H6).
  do 6 (split; [assumption |]). split.
  - intros before first after -> Hfirst Hnone.
    assert (Hfft : fftFeatures (before ++ first :: after)
                   = first :: fftFeatures after).
    { unfold fftFeatures. rewrite List.filter_app. fold (fftFeatures before).
      rewrite (Hbefore _ Hnone). cbn [app List.filter].
      by rewrite (bool_decide_eq_true_2 _ Hfirst). }
    assert (Hne : String.eqb first "" = false).
    { apply String.eqb_neq. intros ->. unfold FFT_SUPPORTED_FEATURES in Hfirst.
      repeat (apply elem_of_cons in Hfirst as [? | Hfirst]; [done |]).
      by apply elem_of_nil in Hfirst. }
    unfold FFTChart.resetSelection, FFTChart.defaultFeature.
    rewrite Hfft. cbn [lookup list_lookup default length]. rewrite Hne.
    split; intros Hnot; rewrite (bool_decide_eq_false_2 _ Hnot); [| done].
    by rewrite (bool_decide_eq_true_2 (0 < S _)%nat) by lia.
  - intros Hnone. unfold FFTChart.resetSelection, FFTChart.defaultFeature.
    rewrite (Hbefore _ Hnone). cbn. split; [done |].
    rewrite bool_decide_eq_false_2; [done |]. apply not_elem_of_nil.
Qed.

(** ** The summary line *)

Lemma arrayFromSet_from {A} `{EqDecision A} (acc xs : list A) :
  NoDup acc →
  ∃ rest,
    foldl (λ acc x, if bool_decide (x ∈ acc) then acc else acc ++ [x])
      acc xs = acc ++ rest
    ∧ NoDup (acc ++ rest)
    ∧ rest `sublist_of` xs
    ∧ ∀ x, x ∈ acc ++ rest ↔ x ∈ acc ∨ x ∈ xs.
Proof.
  revert acc. induction xs as [| y xs IH]; intros acc Hnd; cbn [foldl].
  - exists []. rewrite app_nil_r. repeat split; try done.
    + tauto.
    + intros [? | Hx]; [done | by apply elem_of_nil in Hx].
  - case_bool_decide as Hin.
    + destruct (IH acc Hnd) as (rest & Heq & Hnd' & Hsub & Hmem).
      exists rest. repeat split; try done.
      * by apply sublist_cons.
      * rewrite Hmem, elem_of_cons. tauto.
      * rewrite Hmem, elem_of_cons. intros [? | [-> | ?]]; tauto.
    + destruct (IH (acc ++ [y])) as (rest & Heq & Hnd' & Hsub & Hmem).
      { apply NoDup_app. split; [done |]. split; [| apply NoDup_singleton].
        intros x Hx Hy. apply list_elem_of_singleton in Hy. by subst. }
      exists (y :: rest). rewrite Heq. rewrite <- !app_assoc in *.
      cbn [app] in *. repeat split; try done.
      * by apply sublist_skip.
      * rewrite Hmem, elem_of_app, list_elem_of_singleton, elem_of_cons.
        tauto.
      * rewrite Hmem, elem_of_app, list_elem_of_singleton, elem_of_cons.
        tauto.
Qed.

Lemma arrayFromSet_spec {A} `{EqDecision A} (xs : list A) :
  NoDup (arrayFromSet xs)
  ∧ arrayFromSet xs `sublist_of` xs
  ∧ ∀ x, x ∈ arrayFromSet xs ↔ x ∈ xs.
Proof.
  unfold arrayFromSet.
  destruct (arrayFromSet_from [] xs (NoDup_nil_2 : NoDup (@nil A)))
    as (rest & -> & Hnd & Hsub & Hmem).
  cbn [app] in *. repeat split; try done.
  - intros Hx. apply Hmem in Hx as [Hx | Hx]; [| done].
    by apply elem_of_nil in Hx.
  - intros Hx. apply Hmem. by right.
Qed.

(** X11.  The two counts in the summary line of the feature table count
    distinct values: [uniqueSubjects] and [uniqueEmotions] hold no value
    twice, hold exactly the subject ids and the emotions that occur in
    the rows on display, keep them in the order of the rows, and are
    never longer than the table. *)
Theorem summary_lists_distinct_values
    (data : list SubjectEmotionFeatureRow) :
  NoDup (uniqueSubjects data) ∧ NoDup (uniqueEmotions data)
  ∧ (∀ s, s ∈ uniqueSubjects data ↔ ∃ d, d ∈ data ∧ subjectId d = s)
  ∧ (∀ e, e ∈ uniqueEmotions data ↔ ∃ d, d ∈ data ∧ emotion d = e)
  ∧ uniqueSubjects data `sublist_of` (subjectId <$> data)
  ∧ uniqueEmotions data `sublist_of` (emotion <$> data)
  ∧ (length (uniqueSubjects data) ≤ length data)%nat
  ∧ (length (uniqueEmotions data) ≤ length data)%nat.
Proof.
  unfold uniqueSubjects, uniqueEmotions.
  destruct (arrayFromSet_spec (subjectId <$> data)) as (Hs1 & Hs2 & Hs3).
  destruct (arrayFromSet_spec (emotion <$> data)) as (He1 & He2 & He3).
  repeat split; try done.
  - intros Hin. apply Hs3, list_elem_of_fmap in Hin as (d & -> & Hd).
    by exists d.
  - intros (d & Hd & <-). apply Hs3, list_elem_of_fmap. by exists d.
  - intros Hin. apply He3, list_elem_of_fmap in Hin as (d & -> & Hd).
    by exists d.
  - intros (d & Hd & <-). apply He3, list_elem_of_fmap. by exists d.
  - apply sublist_length in Hs2. by rewrite length_fmap in Hs2.
  - apply sublist_length in He2. by rewrite length_fmap in He2.
Qed.

(** X12.  When no two rows on display share subject and emotion, the
    table has at most as many rows as the product of the two counts of
    its summary line. *)
Theorem summary_counts_bound_rows (data : list SubjectEmotionFeatureRow) :
  NoDup (rowIdentity <$> data) →
  (length data
   ≤ length (uniqueSubjects data) * length (uniqueEmotions data))%nat.
Proof.
  intros Hnd. unfold uniqueSubjects, uniqueEmotions.
  destruct (arrayFromSet_spec (subjectId <$> data)) as (_ & _ & Hs).
  destruct (arrayFromSet_spec (emotion <$> data)) as (_ & _ & He).
  rewrite <- (length_fmap rowIdentity data), <- length_prod.
  apply submseteq_length, NoDup_submseteq; [done |].
  intros [s e] Hin. apply list_elem_of_fmap in Hin as (d & Hid & Hd).
  unfold rowIdentity in Hid. injection Hid as -> ->.
  apply list_elem_of_In, in_prod; apply list_elem_of_In.
  - apply Hs, list_elem_of_fmap. by exists d.
  - apply He, list_elem_of_fmap. by exists d.
Qed.

Lemma summary_counts_bound_rows_witness :
  NoDup (rowIdentity <$> threeRows)
  ∧ (length threeRows
     ≤ length (uniqueSubjects threeRows)
       * length (uniqueEmotions threeRows))%nat.
Proof.
  assert (Hnd : NoDup (rowIdentity <$> threeRows)).
  { unfold threeRows, shownRow, rowIdentity. cbn.
    repeat (apply NoDup_cons; split;
            [rewrite ?elem_of_cons, elem_of_nil; intros H;
             repeat (destruct H as [H | H]; [by inversion H |]); done |]).
    apply NoDup_nil_2. }
  split; [exact Hnd |].
  exact (summary_counts_bound_rows threeRows Hnd).
Defined.

(** ** The raw-data request of the page *)

(** X13.  A request that [loadData] sends asks for at least 500 readings
    per selected subject: with at most ten subjects for the largest
    multiple of their number that is at most 5000, and with ten or more
    for exactly 500 each, so that the total exceeds 5000 from eleven
    subjects on.  A request is sent only for a study and at least one
    selected subject. *)
Theorem loadData_limit_bounds (selectedStudy : option Z)
    (selectedSubjects : list Z) (q : HomePage.QueryParams) :
  HomePage.loadData selectedStudy selectedSubjects = Some q →
  let n := Z.of_nat (length selectedSubjects) in
  selectedStudy = Some (HomePage.studyNumber q)
  ∧ HomePage.studyNumber q ≠ 0
  ∧ HomePage.subjectIds q = selectedSubjects
  ∧ 0 < n
  ∧ 500 * n ≤ HomePage.limit q
  ∧ HomePage.limit q `mod` n = 0
  ∧ (n ≤ 10 → 5000 - n < HomePage.limit q ≤ 5000)
  ∧ (10 ≤ n → HomePage.limit q = 500 * n).
Proof.
  intros Hq n. unfold HomePage.loadData in Hq.
  destruct selectedStudy as [study |]; [| done].
  destruct (study =? 0) eqn:Hstudy; [done |]. cbn [orb] in Hq.
  case_bool_decide as Hlen; [done |].
  injection Hq as <-. cbn. fold n.
  assert (Hn : 0 < n) by lia.
  apply Z.eqb_neq in Hstudy.
  pose proof (Z.div_mod 5000 n ltac:(lia)) as Hdiv.
  pose proof (Z.mod_pos_bound 5000 n Hn) as Hmod.
  repeat split; try done.
  - nia.
  - apply Z.mod_mul. lia.
  - assert (500 ≤ 5000 / n) by (apply Z.div_le_lower_bound; lia).
    rewrite Z.max_l by lia. nia.
  - assert (500 ≤ 5000 / n) by (apply Z.div_le_lower_bound; lia).
    rewrite Z.max_l by lia. nia.
  - intros Hten.
    assert (5000 / n ≤ 500) by (apply Z.div_le_upper_bound; lia).
    rewrite Z.max_r by lia. lia.
Qed.

Lemma loadData_limit_bounds_witness :
  let twelve := [1; 2; 3; 4; 5; 6; 7; 8; 9; 10; 11; 12] in
  let q := {| HomePage.studyNumber := 3; HomePage.subjectIds := twelve;
              HomePage.limit := 6000 |} in
  HomePage.loadData (Some 3) twelve = Some q
  ∧ HomePage.limit q = 500 * 12.
Proof.
  intros twelve q.
  assert (Hq : HomePage.loadData (Some 3) twelve = Some q) by reflexivity.
  split; [exact Hq |].
  destruct (loadData_limit_bounds (Some 3) twelve q Hq)
    as (_ & _ & _ & _ & _ & _ & _ & Hmany).
  apply Hmany. cbn. lia.
Defined.

(** ** Paging *)

Lemma totalPages_ceiling {T} (items : list T) (itemsPerPage : positive) :
  let n := Z.of_nat (length items) in
  let pages := usePagination.totalPages items itemsPerPage in
  (pages - 1) * Z.pos itemsPerPage < n ≤ pages * Z.pos itemsPerPage.
Proof.
  intros n pages. unfold pages, usePagination.totalPages. fold n.
  pose proof (Z.div_mod (- n) (Z.pos itemsPerPage) ltac:(lia)) as Hdiv.
  pose proof (Z.mod_pos_bound (- n) (Z.pos itemsPerPage) ltac:(lia)) as Hmod.
  nia.
Qed.

Lemma paginatedItems_window {T} (items : list T) (itemsPerPage : positive)
    (currentPage : Z) :
  1 ≤ currentPage →
  usePagination.paginatedItems items itemsPerPage currentPage
  = take (Pos.to_nat itemsPerPage)
      (drop (Z.to_nat (currentPage - 1) * Pos.to_nat itemsPerPage) items).
Proof.
  intros Hpage. unfold usePagination.paginatedItems, slice.
  set (k := Z.pos itemsPerPage).
  set (start := (currentPage - 1) * k).
  set (len := Z.of_nat (length items)).
  assert (Hstart : 0 ≤ start) by (unfold start, k; nia).
  rewrite (proj2 (Z.ltb_ge start 0)) by lia.
  rewrite (proj2 (Z.ltb_ge (start + k) 0)) by (unfold k; lia).
  assert (Hnat : (Z.to_nat (currentPage - 1) * Pos.to_nat itemsPerPage)%nat
                 = Z.to_nat start).
  { unfold start, k. rewrite Z2Nat.inj_mul by lia. by rewrite Z2Nat.inj_pos. }
  rewrite Hnat.
  destruct (decide (start ≤ len)) as [Hin | Hout].
  - rewrite (Z.min_l start len) by lia.
    destruct (decide (start + k ≤ len)) as [Hfull | Hshort].
    + rewrite Z.min_l by lia. f_equal. unfold k. lia.
    + rewrite Z.min_r by lia.
      rewrite !take_ge; [done | |]; rewrite length_drop; unfold len, k in *;
        lia.
  - rewrite (Z.min_r start len) by lia.
    rewrite !drop_ge by (unfold len in *; lia).
    by rewrite !take_nil.
Qed.

Lemma windows_concat {T} (k pages : nat) (xs : list T) :
  (length xs ≤ pages * k)%nat →
  concat ((λ i, take k (drop (i * k) xs)) <$> seq 0 pages) = xs.
Proof.
  revert xs. induction pages as [| pages IH]; intros xs Hlen.
  - destruct xs; [done | cbn in Hlen; lia].
  - cbn [seq fmap list_fmap concat]. rewrite drop_0.
    rewrite <- fmap_S_seq, <- list_fmap_compose.
    rewrite (list_fmap_ext _ (λ i, take k (drop (i * k) (drop k xs)))
               (seq 0 pages)).
    + rewrite IH by (rewrite length_drop; lia). apply take_drop.
    + intros i j _. cbn [compose]. rewrite drop_drop. do 2 f_equal; lia.
Qed.

Lemma pages_filled {T} (items : list T) (itemsPerPage : positive) :
  let pages := usePagination.totalPages items itemsPerPage in
  let page := usePagination.paginatedItems items itemsPerPage in
  0 ≤ pages
  ∧ (∀ p, 1 ≤ p ≤ pages →
       (0 < length (page p) ≤ Pos.to_nat itemsPerPage)%nat)
  ∧ (pages = 0 ↔ items = []).
Proof.
  intros pages page.
  pose proof (totalPages_ceiling items itemsPerPage) as Hceil.
  cbn zeta in Hceil. fold pages in Hceil.
  assert (Hpages : 0 ≤ pages) by nia.
  split; [done |]. split.
  - intros p Hp. unfold page. rewrite paginatedItems_window by lia.
    rewrite length_take, length_drop. nia.
  - split.
    + intros Hzero. apply length_zero_iff_nil. lia.
    + intros ->. cbn in Hceil. nia.
Qed.

(** X14.  The pages of the raw-data table cut the rows up without loss:
    pages [1 .. totalPages], one after the other, are the rows in their
    order; each of them holds at least one row and at most
    [itemsPerPage]; a page past the last one is empty. *)
Theorem pages_partition_items {T} (items : list T)
    (itemsPerPage : positive) :
  let pages := usePagination.totalPages items itemsPerPage in
  let page := usePagination.paginatedItems items itemsPerPage in
  concat (page <$> seqZ 1 pages) = items
  ∧ (∀ p, 1 ≤ p ≤ pages →
       (0 < length (page p) ≤ Pos.to_nat itemsPerPage)%nat)
  ∧ (∀ p, pages < p → page p = [])
  ∧ (pages = 0 ↔ items = []).
Proof.
  intros pages page.
  pose proof (totalPages_ceiling items itemsPerPage) as Hceil.
  cbn zeta in Hceil. fold pages in Hceil.
  destruct (pages_filled items itemsPerPage) as (Hpages & Hfilled & Hzero).
  fold pages in Hpages, Hfilled, Hzero.
  split; [| split; [| split]]; [| done | | done].
  - unfold seqZ. rewrite <- list_fmap_compose.
    rewrite (list_fmap_ext _
               (λ i, take (Pos.to_nat itemsPerPage)
                       (drop (i * Pos.to_nat itemsPerPage) items))
               (seq 0 (Z.to_nat pages))).
    + apply windows_concat. nia.
    + intros i j _. cbn [compose]. unfold page.
      rewrite paginatedItems_window by lia. do 3 f_equal; lia.
  - intros p Hp. unfold page. rewrite paginatedItems_window by lia.
    rewrite drop_ge; [by rewrite take_nil |].
    apply Nat2Z.inj_le.
    rewrite Nat2Z.inj_mul, Z2Nat.id, positive_nat_Z by lia. nia.
Qed.

Lemma call_in_range (pages currentPage : Z) (c : usePagination.Call) :
  0 ≤ pages →
  Z.min 1 pages ≤ currentPage ≤ Z.max 1 pages →
  Z.min 1 pages ≤ usePagination.call pages currentPage c ≤ Z.max 1 pages.
Proof.
  intros Hpages Hrange.
  destruct c; cbn; unfold usePagination.goToPage, usePagination.goToFirst,
    usePagination.goToLast, usePagination.goToNext, usePagination.goToPrev;
    lia.
Qed.

Lemma steps_in_range {T} (itemsPerPage : positive)
    (events : list (usePagination.Event T)) (s0 : list T * Z) :
  Z.min 1 (usePagination.totalPages s0.1 itemsPerPage) ≤ s0.2
  ≤ Z.max 1 (usePagination.totalPages s0.1 itemsPerPage) →
  let s := foldl (usePagination.step itemsPerPage) s0 events in
  Z.min 1 (usePagination.totalPages s.1 itemsPerPage) ≤ s.2
  ≤ Z.max 1 (usePagination.totalPages s.1 itemsPerPage).
Proof.
  revert s0. induction events as [| e events IH]; intros s0 Hs0; [done |].
  cbn [foldl]. apply IH.
  destruct e as [c | items']; cbn [usePagination.step fst snd].
  - apply call_in_range; [| done].
    by destruct (pages_filled s0.1 itemsPerPage) as (? & _).
  - case_bool_decide as Hlen; [| lia].
    unfold usePagination.totalPages in *. by rewrite Hlen.
Qed.

(** X15.  Whatever is called on the pager and however the rows are
    replaced in between, the page number stays between 1 and
    [totalPages] when there are rows, so the page shown is never empty;
    over an empty table the number is 0 or 1 and the page is empty.  In
    particular no call brings up a negative page number, for which
    [slice] would count from the end. *)
Theorem current_page_stays_in_range {T} (items : list T)
    (itemsPerPage : positive) (events : list (usePagination.Event T)) :
  let s := usePagination.session items itemsPerPage events in
  let pages := usePagination.totalPages s.1 itemsPerPage in
  let shown := usePagination.paginatedItems s.1 itemsPerPage s.2 in
  Z.min 1 pages ≤ s.2 ≤ Z.max 1 pages
  ∧ (s.1 ≠ [] → 1 ≤ s.2 ≤ pages ∧ shown ≠ [])
  ∧ (s.1 = [] → shown = []).
Proof.
  intros s pages shown.
  destruct (pages_filled s.1 itemsPerPage) as (Hpages & Hfilled & Hzero).
  fold pages in Hpages, Hfilled, Hzero.
  assert (Hrange : Z.min 1 pages ≤ s.2 ≤ Z.max 1 pages).
  { unfold pages, s, usePagination.session.
    apply steps_in_range. cbn [fst snd]. lia. }
  split; [done |]. split.
  - intros Hne.
    assert (pages ≠ 0) by (intros H; by apply Hzero in H).
    assert (Hin : 1 ≤ s.2 ≤ pages) by lia.
    split; [done |]. intros Hnil. specialize (Hfilled _ Hin).
    fold shown in Hfilled. rewrite Hnil in Hfilled. cbn in Hfilled. lia.
  - intros Hnil. unfold shown, usePagination.paginatedItems, slice.
    by rewrite Hnil, drop_nil, take_nil.
Qed.
